(** * Company Knowledge Worker: classifier, chunker, corpus builder and
      diversity retriever

    A shallow embedding of [src/document_loader.py] and
    [src/improved_rag.py], with the properties of the specification stated
    over it.  Python [str] values are modelled as [string] (paths, labels,
    queries) and as lists of characters (chunked text); the paths and
    queries are taken to be ASCII, so that [str.lower] and [str.title] act
    on the letters A-Z and a-z only. *)

From Stdlib Require Import Ascii String Arith NArith Bool Lia PeanoNat List.
Import ListNotations.
Open Scope string_scope.
Open Scope list_scope.

Set Warnings "-abstract-large-number".

(** ** Python string operations used by the source *)

Module PyStr.

Local Open Scope string_scope.

Definition is_upper (c : ascii) : bool :=
  let n := nat_of_ascii c in (Nat.leb 65 n && Nat.leb n 90)%bool.

Definition is_lower (c : ascii) : bool :=
  let n := nat_of_ascii c in (Nat.leb 97 n && Nat.leb n 122)%bool.

Definition lower_char (c : ascii) : ascii :=
  if is_upper c then ascii_of_nat (nat_of_ascii c + 32) else c.

Definition upper_char (c : ascii) : ascii :=
  if is_lower c then ascii_of_nat (nat_of_ascii c - 32) else c.

(** [s.lower()] *)
Fixpoint lower (s : string) : string :=
  match s with
  | EmptyString => EmptyString
  | String c s' => String (lower_char c) (lower s')
  end.

(** [s.startswith(p)] *)
Definition startswith (p s : string) : bool := String.prefix p s.

(** [needle in hay] *)
Fixpoint contains (needle hay : string) : bool :=
  if String.prefix needle hay then true
  else match hay with
       | EmptyString => false
       | String _ hay' => contains needle hay'
       end.

(** [any(keyword in s for keyword in keywords)] *)
Definition any_in (keywords : list string) (s : string) : bool :=
  existsb (fun keyword => contains keyword s) keywords.

(** [s.split(sep)] for a one-character separator: the pieces between
    the occurrences of [sep], empty pieces included. *)
Fixpoint split_acc (sep : ascii) (cur : string) (s : string) : list string :=
  match s with
  | EmptyString => [cur]
  | String c s' =>
      if Ascii.eqb c sep then cur :: split_acc sep EmptyString s'
      else split_acc sep (cur ++ String c EmptyString) s'
  end.

Definition split (sep : ascii) (s : string) : list string :=
  split_acc sep EmptyString s.

(** [sep.join(parts)] *)
Fixpoint join (sep : string) (parts : list string) : string :=
  match parts with
  | [] => EmptyString
  | [p] => p
  | p :: ps => p ++ sep ++ join sep ps
  end.

(** [s.replace(a, b)] for single characters. *)
Fixpoint replace_char (a b : ascii) (s : string) : string :=
  match s with
  | EmptyString => EmptyString
  | String c s' => String (if Ascii.eqb c a then b else c) (replace_char a b s')
  end.

(** [s.title()]: a letter that follows a letter is lower-cased, any
    other letter is upper-cased. *)
Fixpoint title_from (prev_cased : bool) (s : string) : string :=
  match s with
  | EmptyString => EmptyString
  | String c s' =>
      let cased := is_upper c || is_lower c in
      String (if prev_cased then lower_char c else upper_char c)
             (title_from cased s')
  end.

Definition title (s : string) : string := title_from false s.

Definition slash : ascii := "/"%char.
Definition dot : ascii := "."%char.

(** [os.path.basename(p)]: what follows the last slash. *)
Definition basename (p : string) : string := last (split slash p) EmptyString.

(** [os.path.dirname(p)]: what precedes the last slash (no slash: empty).
    Trailing slashes of the head are stripped unless it is all slashes;
    the paths here never have doubled slashes. *)
Definition dirname (p : string) : string :=
  match split slash p with
  | [] | [_] => EmptyString
  | parts =>
      let head := join "/" (removelast parts) in
      if String.eqb head EmptyString then "/" else head
  end.

(** [os.path.join(a, b)] *)
Definition path_join (a b : string) : string :=
  if startswith "/" b then b
  else if String.eqb a EmptyString then b
  else if String.eqb (substring (String.length a - 1) 1 a) "/" then a ++ b
  else a ++ "/" ++ b.

Definition nonempty (s : string) : bool := negb (String.eqb s EmptyString).

(** One step of the component loop of [posixpath.normpath]; [rooted]
    says that the path has initial slashes, [new_comps] is kept in
    reverse. *)
Definition norm_step (rooted : bool) (new_comps_rev : list string) (comp : string)
  : list string :=
  if String.eqb comp EmptyString || String.eqb comp "." then new_comps_rev
  else if negb (String.eqb comp "..")
          || (negb rooted && match new_comps_rev with [] => true | _ => false end)
          || match new_comps_rev with
             | top :: _ => String.eqb top ".."
             | [] => false
             end
       then comp :: new_comps_rev
       else match new_comps_rev with
            | _ :: rest => rest
            | [] => []
            end.

Definition norm_comps (path : string) : list string :=
  rev (fold_left (norm_step (startswith "/" path)) (split slash path) nil).

(** [os.path.normpath(path)] *)
Definition normpath (path : string) : string :=
  if String.eqb path EmptyString then "."
  else
    let initial_slashes :=
      if startswith "/" path then
        if startswith "//" path && negb (startswith "///" path) then "//" else "/"
      else EmptyString in
    let path' := initial_slashes ++ join "/" (norm_comps path) in
    if String.eqb path' EmptyString then "." else path'.

(** [os.path.abspath(path)], the working directory being [cwd]. *)
Definition abspath (cwd path : string) : string :=
  normpath (path_join cwd path).

(** [os.path.commonprefix] on two lists of components. *)
Fixpoint commonprefix (l1 l2 : list string) : list string :=
  match l1, l2 with
  | x :: l1', y :: l2' => if String.eqb x y then x :: commonprefix l1' l2' else nil
  | _, _ => nil
  end.

(** [os.path.relpath(path, start)] for a non-empty [path]. *)
Definition relpath (cwd path start : string) : string :=
  let start_list := filter nonempty (split slash (abspath cwd start)) in
  let path_list := filter nonempty (split slash (abspath cwd path)) in
  let i := List.length (commonprefix start_list path_list) in
  let rel_list := (repeat ".." (List.length start_list - i) ++ skipn i path_list)%list in
  match rel_list with
  | nil => "."
  | _ => join "/" rel_list
  end.

(** [os.path.splitext(name)[1]]: from the last dot of the name on, the
    leading dots of the name not counted. *)
Fixpoint ext_scan (seen_other : bool) (best : string) (s : string) : string :=
  match s with
  | EmptyString => best
  | String c s' =>
      if Ascii.eqb c dot then
        ext_scan seen_other (if seen_other then s else best) s'
      else ext_scan true best s'
  end.

Definition splitext_ext (name : string) : string :=
  ext_scan false EmptyString (basename name).

(** A path component that [normpath] keeps as it is: not empty, without a
    slash, neither [.] nor [..]. *)
Definition regular (comp : string) : bool :=
  nonempty comp && negb (contains "/" comp)
  && negb (String.eqb comp ".") && negb (String.eqb comp "..").

(** The absolute path with the given components. *)
Definition absolute (comps : list string) : string := "/" ++ join "/" comps.

End PyStr.

(** ** Documents *)

(** A langchain [Document]: text and a flat metadata dictionary. *)
Record Document : Type := mkDocument {
  page_content : string;
  metadata : list (string * string)
}.

(** [metadata.get(key)] *)
Fixpoint meta_get (key : string) (m : list (string * string)) : option string :=
  match m with
  | [] => None
  | (k, v) :: m' => if String.eqb k key then Some v else meta_get key m'
  end.

(** [metadata[key] = v] *)
Fixpoint meta_set (key v : string) (m : list (string * string)) : list (string * string) :=
  match m with
  | [] => [(key, v)]
  | (k, w) :: m' =>
      if String.eqb k key then (k, v) :: m' else (k, w) :: meta_set key v m'
  end.

(** ** Classifier ([DocumentProcessor] in [src/document_loader.py]) *)

Module Classifier.

(** The keyword lists of [determine_project_name], tested on the whole
    lower-cased path, in the order of the source. *)
Definition path_rules : list (list string * string) :=
  [ (["aa_sql"; "sql_server"; "sql server"; "version_upgrade"; "cumulative";
      "aiskoldb"; "aiscengdb"],
     "SQL Server Upgrades");
    (["itgisworx"; "precision"; "agriculture"; "sensaas"; "asset_management";
      "assets_datastructure"],
     "Precision Agriculture Asset Management");
    (["aa_sfms"; "sfms"; "mining"; "quellaveco"; "amps"; "operator"; "hexagon";
      "realtime"; "truck"],
     "SFMS Mining Analytics");
    (["eben_db_migration"; "migration"; "consolidated"; "modem"; "meters";
      "suppliers"; "accounts"; "tariffs"],
     "Database Migration");
    (["aa adas"; "adas"; "mix integrate"; "driver assistance"; "events";
      "dictionary"],
     "Advanced Driver Assistance System") ].

(** The keyword lists tested on one folder name. *)
Definition folder_rules : list (list string * string) :=
  [ (["sql"; "server"; "upgrade"], "SQL Server Upgrades");
    (["precision"; "agriculture"; "gis"], "Precision Agriculture Asset Management");
    (["sfms"; "mining"; "analytics"], "SFMS Mining Analytics");
    (["migration"; "db"], "Database Migration");
    (["adas"; "driver"], "Advanced Driver Assistance System") ].

(** An [if]/[elif] chain of keyword tests: the first list with a keyword
    in [s] decides. *)
Fixpoint first_rule (rules : list (list string * string)) (s : string) : option string :=
  match rules with
  | [] => None
  | (keywords, project) :: rules' =>
      if PyStr.any_in keywords s then Some project else first_rule rules' s
  end.

(** The loop over [reversed(path_parts)]: the first part that is neither
    the file name nor ['Projects'] decides. *)
Fixpoint from_folders (filename : string) (parts_reversed : list string) : string :=
  match parts_reversed with
  | [] => "General Project"
  | part :: rest =>
      if negb (String.eqb part filename) && negb (String.eqb part "Projects") then
        match first_rule folder_rules (PyStr.lower part) with
        | Some project => project
        | None => PyStr.title (PyStr.replace_char "_" " " part)
        end
      else from_folders filename rest
  end.

Definition determine_project_name (file_path : string) : string :=
  let file_path_lower := PyStr.lower file_path in
  match first_rule path_rules file_path_lower with
  | Some project => project
  | None =>
      let path_parts := PyStr.split PyStr.slash file_path in
      from_folders (PyStr.basename file_path) (rev path_parts)
  end.

(** [get_document_type]; [cwd] is the working directory, which
    [os.path.relpath] consults for relative arguments. *)
Definition get_document_type (cwd file_path base_path : string) : string :=
  let rel_path := PyStr.relpath cwd file_path base_path in
  let path_parts := PyStr.split PyStr.slash rel_path in
  if Nat.eqb (List.length path_parts) 1 then "root_files"
  else hd EmptyString path_parts.

(** [Config.BASE_PATH], the default corpus root. *)
Definition BASE_PATH : string := "/Users/johanjgenis/Documents/Artiligence".

End Classifier.

(** ** Chunker ([chunk_documents] in [src/document_loader.py]) *)

Module Chunker.

Local Open Scope nat_scope.

(** [chunk_documents] hands every document to a
    [RecursiveCharacterTextSplitter] built with [Config.CHUNK_SIZE],
    [Config.CHUNK_OVERLAP] and four separators. *)
Definition CHUNK_SIZE : nat := 1200.
Definition CHUNK_OVERLAP : nat := 150.

(** The separators as the source writes them: a backslash followed by the
    letter n, twice; a backslash followed by the letter n; a space; the
    empty string. *)
Definition separators : list (list ascii) :=
  map list_ascii_of_string ["\n\n"; "\n"; " "; EmptyString].

Section Merge.

Context {A : Type}.
Variables (size overlap : nat).

(** The state of the merging loop: the chunks emitted so far, each with
    the number of leading characters that it repeats from the chunk
    before it; the pieces of the chunk under construction; their total
    length; and the number of leading characters of the chunk under
    construction that were carried over from the last chunk. *)
Record merge_state : Type := mkMerge {
  docs : list (nat * list A);
  current_doc : list (list A);
  total : nat;
  carried : nat
}.

(** Modelled from the spec: the splitter class
    [RecursiveCharacterTextSplitter] is not under [src/].  This is the
    overlap of section 4.2, "an overlap-sized trailing slice of the
    previous chunk's content at the start of the next chunk": pieces are
    dropped from the front of the finished chunk while more than
    [overlap] characters remain, or while the next piece of [len]
    characters would not fit after them; what remains opens the next
    chunk. *)
Fixpoint pop_front (len : nat) (cur : list (list A)) (tot : nat)
  : list (list A) * nat :=
  match cur with
  | [] => ([], tot)
  | first :: rest =>
      if (overlap <? tot) || ((size <? tot + len) && (0 <? tot))
      then pop_front len rest (tot - length first)
      else (cur, tot)
  end.

(** Modelled from the spec: the splitter class
    [RecursiveCharacterTextSplitter] is not under [src/].  A chunk of
    section 4.2 is its pieces "concatenated back together"; an empty one
    is not emitted. *)
Definition emit (ds : list (nat * list A)) (o : nat) (cur : list (list A))
  : list (nat * list A) :=
  match concat cur with
  | [] => ds
  | doc => ds ++ [(o, doc)]
  end.

(** Modelled from the spec: the splitter class
    [RecursiveCharacterTextSplitter] is not under [src/].  This is the
    merging of section 4.2, "concatenate adjacent pieces back together up
    to [size] characters": a piece that does not fit closes the chunk
    under construction. *)
Definition merge_step (st : merge_state) (d : list A) : merge_state :=
  let len := length d in
  let st' :=
    if size <? total st + len then
      match current_doc st with
      | [] => st
      | _ :: _ =>
          let '(cur', tot') := pop_front len (current_doc st) (total st) in
          mkMerge (emit (docs st) (carried st) (current_doc st))
                  cur' tot' (length (concat cur'))
      end
    else st in
  mkMerge (docs st') (current_doc st' ++ [d]) (total st' + len) (carried st').

Definition merge_init : merge_state := mkMerge [] [] 0 0.

(** Modelled from the spec: the splitter class
    [RecursiveCharacterTextSplitter] is not under [src/].  The merging of
    section 4.2 run over all the pieces; the chunk under construction at
    the end is the last chunk. *)
Definition merge_splits_ov (splits : list (list A)) : list (nat * list A) :=
  let st := fold_left merge_step splits merge_init in
  emit (docs st) (carried st) (current_doc st).

(** Modelled from the spec: the splitter class
    [RecursiveCharacterTextSplitter] is not under [src/].  This is the
    loop of section 4.2 over the pieces of one separator, "if a resulting
    piece still exceeds [size], recursively split that piece using the
    next separator": pieces of at most [size] characters are collected
    and merged; a longer piece is split again by [deeper], the splitter
    for the separators that remain, or kept whole when no separator
    remains. *)
Fixpoint process_splits (deeper : option (list A -> list (nat * list A)))
         (good : list (list A)) (splits : list (list A)) : list (nat * list A) :=
  match splits with
  | [] => merge_splits_ov good
  | s :: rest =>
      if length s <=? size then process_splits deeper (good ++ [s]) rest
      else merge_splits_ov good
           ++ match deeper with
              | Some split_again => split_again s
              | None => [(0, s)]
              end
           ++ process_splits deeper [] rest
  end.

(** The text that the annotated chunks stand for: every chunk without
    the characters it repeats. *)
Definition stitch (chunks : list (nat * list A)) : list A :=
  concat (map (fun '(o, c) => skipn o c) chunks).

(** Every chunk repeats at most [overlap] characters, and these are the
    last characters of the chunk before it ([prev]). *)
Fixpoint overlaps_ok (prev : list A) (chunks : list (nat * list A)) : Prop :=
  match chunks with
  | [] => True
  | (o, c) :: rest =>
      o <= overlap /\ o <= length prev /\
      firstn o c = skipn (length prev - o) prev /\
      overlaps_ok c rest
  end.

(** The first [o] characters of [c] are the last [o] of [prev]. *)
Definition link (prev : list A) (o : nat) (c : list A) : Prop :=
  o <= length prev /\ firstn o c = skipn (length prev - o) prev.

Definition last_text (ds : list (nat * list A)) : list A :=
  last (map snd ds) [].

(** The state of the merging loop after the pieces [pieces]. *)
Definition merge_inv (pieces : list (list A)) (st : merge_state) : Prop :=
  total st = length (concat (current_doc st)) /\
  stitch (docs st) ++ skipn (carried st) (concat (current_doc st)) = concat pieces /\
  carried st <= length (concat (current_doc st)) /\
  carried st <= overlap /\
  overlaps_ok [] (docs st) /\
  link (last_text (docs st)) (carried st) (concat (current_doc st)).

Definition sizes_inv (st : merge_state) : Prop :=
  total st = length (concat (current_doc st)) /\
  total st <= size /\
  Forall (fun c => length (snd c) <= size) (docs st).

End Merge.

Definition text : Type := list ascii.

Fixpoint is_prefix (p t : text) : bool :=
  match p, t with
  | [], _ => true
  | _ :: _, [] => false
  | x :: p', y :: t' => Ascii.eqb x y && is_prefix p' t'
  end.

(** [re.search(separator, text)] for a literal separator. *)
Fixpoint occurs (sep t : text) : bool :=
  is_prefix sep t || match t with
                     | [] => false
                     | _ :: t' => occurs sep t'
                     end.

(** Modelled from the spec: the splitter class
    [RecursiveCharacterTextSplitter] is not under [src/].  This is the
    split "on a paragraph break", a "line break" or a "space" of section
    4.2: the pieces of [t] between the occurrences of a non-empty
    separator, found from left to right; [skip] characters of a separator
    just found are still to be passed, [cur_rev] is the piece under
    construction, reversed. *)
Fixpoint split_on (sep : text) (skip : nat) (cur_rev : text) (t : text) : list text :=
  match t with
  | [] => [rev cur_rev]
  | c :: t' =>
      match skip with
      | S k => split_on sep k cur_rev t'
      | O =>
          if is_prefix sep t
          then rev cur_rev :: split_on sep (length sep - 1) [] t'
          else split_on sep 0 (c :: cur_rev) t'
      end
  end.

Definition nonempty (t : text) : bool :=
  match t with [] => false | _ => true end.

(** Modelled from the spec: the splitter class
    [RecursiveCharacterTextSplitter] is not under [src/].  These are the
    "separator-preserving splits" of sections 3 and 4.2: each separator
    stays at the head of the piece that follows it, empty pieces are
    dropped; the empty separator is the hard cut into single
    characters. *)
Definition split_keep (sep t : text) : list text :=
  match sep with
  | [] => map (fun c => [c]) t
  | _ :: _ =>
      match split_on sep 0 [] t with
      | [] => []
      | p0 :: ps => filter nonempty (p0 :: map (app sep) ps)
      end
  end.

(** The text between and around the separators, put together again. *)
Definition rejoin (sep : text) (pieces : list text) : text :=
  match pieces with
  | [] => []
  | p0 :: ps => p0 ++ concat (map (app sep) ps)
  end.

(** Renaming the characters of annotated chunks and of a merging state. *)
Definition relabel {A B : Type} (f : A -> B) (c : nat * list A) : nat * list B :=
  (fst c, map f (snd c)).

Definition relabel_state {A B : Type} (f : A -> B) (st : @merge_state A)
  : @merge_state B :=
  mkMerge (map (relabel f) (docs st)) (map (map f) (current_doc st))
          (total st) (carried st).

Section Splitter.

Variables (size overlap : nat).

(** Modelled from the spec: the splitter class
    [RecursiveCharacterTextSplitter] is not under [src/].  This is the
    recursive separator preference of section 4.2: the first separator
    that occurs in the text splits it (the empty separator always does,
    and ends the recursion); pieces that are still too long go to the
    separators after it. *)
Fixpoint split_text_ov (seps : list text) (t : text) : list (nat * text) :=
  match seps with
  | [] => match t with [] => [] | _ => [(0, t)] end
  | sep :: rest =>
      match sep with
      | [] => process_splits size overlap None [] (split_keep sep t)
      | _ :: _ =>
          if occurs sep t then
            process_splits size overlap
              (match rest with
               | [] => None
               | _ => Some (split_text_ov rest)
               end) [] (split_keep sep t)
          else
            match rest with
            | [] => process_splits size overlap None [] (split_keep sep t)
            | _ => split_text_ov rest t
            end
      end
  end.

(** Modelled from the spec: the splitter class
    [RecursiveCharacterTextSplitter] is not under [src/].  This is
    [chunk(text, size, overlap)] of section 4.2 with the separators that
    [chunk_documents] passes, each chunk annotated with the number of
    characters it repeats. *)
Definition chunk_ov (t : text) : list (nat * text) :=
  split_text_ov separators t.

(** Modelled from the spec: the splitter class
    [RecursiveCharacterTextSplitter] is not under [src/].  This is the
    contract of section 4.2,
    [chunk(text, size, overlap) -> sequence of string]. *)
Definition chunk (t : text) : list text := map snd (chunk_ov t).

End Splitter.

(** The positions [a], [a+1], ..., [a+n-1] of a text, as binary numbers. *)
Definition positions (a n : nat) : list N := map N.of_nat (seq a n).

(** A text with a long token, for the hard cut. *)
Definition long_token_text : text :=
  list_ascii_of_string
    "hello world this is a test of chunking_with_a_very_long_token ok".

(** [n] copies of a text. *)
Fixpoint times (n : nat) (t : text) : text :=
  match n with
  | O => []
  | S n' => t ++ times n' t
  end.

(** A document of 3000 characters without any separator. *)
Definition solid_document : text := repeat "a"%char 3000.

(** A document of 3000 characters: four words of 749 letters, a space
    after each. *)
Definition four_words : text := times 4 (repeat "a"%char 749 ++ [" "%char]).

End Chunker.

(** ** Corpus builder ([DocumentProcessor] in [src/document_loader.py]) *)

Module Corpus.

Import Classifier.
Local Open Scope nat_scope.

(** What the build reads of a file: its size in bytes
    ([os.path.getsize]) and what the loader for its type extracts from
    it: the pages of a PDF, the rendered sheets of a workbook, one text
    otherwise; [None] when the loader raises. *)
Record file_data : Type := mkFile {
  file_size : nat;
  extracted : option (list string)
}.

(** A directory tree, the entries of a directory in the order in which
    the system lists them. *)
#[local] Unset Elimination Schemes.

Inductive node : Type :=
| File (name : string) (data : file_data)
| Dir (name : string) (children : list node).

#[local] Set Elimination Schemes.

(** [Config.SUPPORTED_EXTENSIONS] and [Config.MAX_FILE_SIZE]. *)
Definition SUPPORTED_EXTENSIONS : list string :=
  [".md"; ".txt"; ".py"; ".js"; ".html"; ".css"; ".json"; ".yml"; ".yaml";
   ".xml"; ".csv"; ".rst"; ".tex"; ".pdf"; ".docx"; ".doc"; ".xlsx"; ".xls"].

Definition MAX_FILE_SIZE : nat := 100000.

Definition mem (x : string) (l : list string) : bool := existsb (String.eqb x) l.

Definition hidden (name : string) : bool := PyStr.startswith "." name.

(** *** Discovery *)

(** The body of the [os.walk] loop of [find_all_files_recursive] for one
    directory: the supported files that are not hidden. *)
Definition files_here (root : string) (children : list node)
  : list (string * file_data) :=
  flat_map (fun n =>
              match n with
              | File filename data =>
                  if negb (hidden filename)
                     && mem (PyStr.lower (PyStr.splitext_ext filename))
                            SUPPORTED_EXTENSIONS
                  then [(PyStr.path_join root filename, data)]
                  else []
              | Dir _ _ => []
              end) children.

(** [os.walk] below [root], the hidden directories pruned
    ([dirs[:] = [d for d in dirs if not d.startswith('.')]]). *)
Fixpoint walk_files (root : string) (n : node) : list (string * file_data) :=
  match n with
  | File _ _ => []
  | Dir d children =>
      if hidden d then []
      else files_here (PyStr.path_join root d) children
           ++ flat_map (walk_files (PyStr.path_join root d)) children
  end.

Definition find_all_files_recursive (base_path : string) (children : list node)
  : list (string * file_data) :=
  files_here base_path children ++ flat_map (walk_files base_path) children.

(** [find_all_directories]: the same walk, which also prunes
    [__pycache__] and [node_modules] and collects the directories. *)
Definition pruned_directory (d : string) : bool :=
  hidden d || mem (PyStr.lower d) ["__pycache__"; "node_modules"].

Fixpoint walk_directories (root : string) (n : node) : list string :=
  match n with
  | File _ _ => []
  | Dir d children =>
      if pruned_directory d then []
      else PyStr.path_join root d
           :: flat_map (walk_directories (PyStr.path_join root d)) children
  end.

Definition find_all_directories (base_path : string) (children : list node)
  : list string :=
  flat_map (walk_directories base_path) children.

(** [glob.glob(base_path/Projects/**/*, recursive=True)], files only:
    the wildcards do not match hidden names. *)
Definition glob_here (root : string) (children : list node)
  : list (string * file_data) :=
  flat_map (fun n =>
              match n with
              | File filename data =>
                  if hidden filename then []
                  else [(PyStr.path_join root filename, data)]
              | Dir _ _ => []
              end) children.

Fixpoint glob_below (root : string) (n : node) : list (string * file_data) :=
  match n with
  | File _ _ => []
  | Dir d children =>
      if hidden d then []
      else glob_here (PyStr.path_join root d) children
           ++ flat_map (glob_below (PyStr.path_join root d)) children
  end.

Definition project_files (base_path : string) (children : list node)
  : list (string * file_data) :=
  flat_map (fun n =>
              match n with
              | Dir d sub =>
                  if String.eqb d "Projects"
                  then glob_here (PyStr.path_join base_path d) sub
                       ++ flat_map (glob_below (PyStr.path_join base_path d)) sub
                  else []
              | File _ _ => []
              end) children.

(** *** Loading *)

(** [add_metadata] *)
Definition add_metadata (doc : Document) (doc_type file_type subdirectory : string)
  : Document :=
  let m := meta_set "doc_type" doc_type (metadata doc) in
  let m := if PyStr.nonempty file_type then meta_set "file_type" file_type m else m in
  let m := if PyStr.nonempty subdirectory
           then meta_set "subdirectory" subdirectory m else m in
  mkDocument (page_content doc) m.

(** The documents and the counters of [load_documents_recursive]. *)
Record load_state : Type := mkLoad {
  documents : list Document;
  loaded_count : nat;
  skipped_large : nat;
  skipped_errors : nat
}.

Definition text_extensions : list string :=
  [".md"; ".txt"; ".py"; ".js"; ".html"; ".css"; ".json"; ".yml"; ".yaml";
   ".xml"; ".csv"; ".rst"; ".tex"].

(** A loaded document: the loaders set [source] to the path.  (The page
    number that the PDF loader adds is left out.) *)
Definition loaded (file_path content : string) : Document :=
  mkDocument content [("source", file_path)].

Definition skip_error (st : load_state) : load_state :=
  mkLoad (documents st) (loaded_count st) (skipped_large st) (S (skipped_errors st)).

Definition add_documents (st : load_state) (docs : list Document) (n : nat)
  : load_state :=
  mkLoad (documents st ++ docs) (loaded_count st + n) (skipped_large st)
         (skipped_errors st).

Section Loading.

(** [self.base_path], [self.max_file_size], and the working directory
    that [os.path.relpath] consults. *)
Variables (cwd base_path : string) (max_file_size : nat).

(** One iteration of the loop of [load_documents_recursive]. *)
Definition load_file (st : load_state) (file : string * file_data) : load_state :=
  let '(file_path, data) := file in
  if max_file_size <? file_size data then
    mkLoad (documents st) (loaded_count st) (S (skipped_large st)) (skipped_errors st)
  else
    let file_ext := PyStr.lower (PyStr.splitext_ext file_path) in
    let filename := PyStr.basename file_path in
    let doc_type := get_document_type cwd file_path base_path in
    let rel_path := PyStr.relpath cwd file_path base_path in
    let subdirectory :=
      if String.eqb (PyStr.dirname rel_path) "." then EmptyString else PyStr.dirname rel_path in
    let decorate file_type content :=
      add_metadata (loaded file_path content) doc_type file_type subdirectory in
    if mem file_ext text_extensions then
      match extracted data with
      | Some (content :: _) =>
          add_documents st [decorate (substring 1 (String.length file_ext) file_ext) content] 1
      | _ => skip_error st
      end
    else if String.eqb file_ext ".pdf" then
      match extracted data with
      | Some pages_ => add_documents st (map (decorate "pdf") pages_) (length pages_)
      | None => skip_error st
      end
    else if mem file_ext [".docx"; ".doc"] then
      match extracted data with
      | Some (content :: _) => add_documents st [decorate "docx" content] 1
      | _ => skip_error st
      end
    else if mem file_ext [".xlsx"; ".xls"] then
      match extracted data with
      | Some sheets =>
          let combined_content :=
            ("Excel File: " ++ filename ++ "\n\n"
             ++ PyStr.join "\n\n---\n\n" sheets)%string in
          add_documents st [decorate "excel" combined_content] 1
      | None => skip_error st
      end
    else st.

Definition load_state_recursive (tree : list node) : load_state :=
  fold_left load_file (find_all_files_recursive base_path tree) (mkLoad [] 0 0 0).

Definition load_documents_recursive (tree : list node) : list Document :=
  documents (load_state_recursive tree).

(** [add_enhanced_metadata] *)
Definition add_enhanced_metadata (doc : Document) (doc_type file_type project_name : string)
  : Document :=
  mkDocument (page_content doc)
    (meta_set "project" project_name
       (meta_set "company" "Company"
          (meta_set "file_type" file_type
             (meta_set "doc_type" doc_type (metadata doc))))).

Definition is_space (c : ascii) : bool :=
  let n := nat_of_ascii c in
  (n =? 32) || ((9 <=? n) && (n <=? 13)) || ((28 <=? n) && (n <=? 31)).

(** [content.strip()] is not empty. *)
Fixpoint has_text (s : string) : bool :=
  match s with
  | EmptyString => false
  | String c s' => negb (is_space c) || has_text s'
  end.

(** One iteration of the loop of [load_enhanced_project_documents]: the
    documents it appends. *)
Definition load_project_file (file : string * file_data) : list Document :=
  let '(file_path, data) := file in
  let filename := PyStr.basename file_path in
  let file_ext := PyStr.lower (PyStr.splitext_ext filename) in
  let project_name := determine_project_name file_path in
  if PyStr.startswith "~$" filename || PyStr.startswith "." filename then []
  else
    let enhanced kind file_type content :=
      add_enhanced_metadata
        (loaded file_path
           ("ARTILIGENCE PROJECT: " ++ project_name ++ "\n\n" ++ kind ++ ": "
            ++ filename ++ "\n\n" ++ content)%string)
        "Projects" file_type project_name in
    if String.eqb file_ext ".pdf" then
      match extracted data with
      | Some pages_ => map (enhanced "Document" "pdf") pages_
      | None => []
      end
    else if mem file_ext [".docx"; ".doc"] then
      match extracted data with
      | Some (content :: _) =>
          if has_text content then [enhanced "Document" "docx" content] else []
      | _ => []
      end
    else if String.eqb file_ext ".txt" then
      match extracted data with
      | Some (content :: _) =>
          if PyStr.nonempty content
          then [enhanced "Script/Document" "text" content] else []
      | _ => []
      end
    else if String.eqb file_ext ".sql" then
      match extracted data with
      | Some (content :: _) => [enhanced "SQL Script" "sql" content]
      | _ => []
      end
    else if mem file_ext [".xlsx"; ".xls"; ".csv"] then
      match extracted data with
      | Some (summary :: _) => [enhanced "Spreadsheet" "spreadsheet" summary]
      | _ => []
      end
    else [].

Definition load_enhanced_project_documents (tree : list node) : list Document :=
  flat_map load_project_file (project_files base_path tree).

(** The filter of [load_all_documents]: "keep all project documents
    regardless of size". *)
Definition keeps (doc : Document) : bool :=
  let doc_size := String.length (page_content doc) in
  let doc_type := match meta_get "doc_type" (metadata doc) with
                  | Some t => t
                  | None => "unknown"
                  end in
  String.eqb doc_type "Projects" || (doc_size <=? max_file_size).

(** [chunk_documents]: every chunk of a document carries the metadata
    of the document. *)
Definition chunk_documents (docs : list Document) : list Document :=
  flat_map (fun doc =>
              map (fun c => mkDocument (string_of_list_ascii c) (metadata doc))
                  (Chunker.chunk Chunker.CHUNK_SIZE Chunker.CHUNK_OVERLAP
                     (list_ascii_of_string (page_content doc))))
           docs.

(** The chunks of [load_all_documents] before the safety check. *)
Definition all_chunks (tree : list node) : list Document :=
  let documents := load_documents_recursive tree
                   ++ load_enhanced_project_documents tree in
  chunk_documents (filter keeps documents).

Section Sampling.

(** Python's global random generator: its states, the state that
    [random.seed(n)] installs, and [random.sample(population, k)],
    which reads and advances the state. *)
Variable rng : Type.
Variable random_seed : nat -> rng.
Variable random_sample : rng -> list Document -> nat -> list Document * rng.

(** The safety check of [load_all_documents]. *)
Definition cap_chunks (state : rng) (chunks : list Document)
  : list Document * rng :=
  if 5000 <? length chunks
  then random_sample (random_seed 42) chunks 5000
  else (chunks, state).

Definition load_all_documents (state : rng) (tree : list node)
  : list Document * rng :=
  cap_chunks state (all_chunks tree).

End Sampling.

End Loading.

(** The path that a chunk comes from. *)
Definition source_path (doc : Document) : string :=
  match meta_get "source" (metadata doc) with
  | Some p => p
  | None => EmptyString
  end.

(** [p] lies below [base] along directory and file names none of which is
    hidden. *)
Definition visible_below (base p : string) : Prop :=
  exists names,
    names <> [] /\ Forall (fun name => hidden name = false) names /\
    p = fold_left PyStr.path_join names base.

(** A sampler for the examples: the population rotated by the state, cut
    to [k]. *)
Definition rotate_sample (state : nat) (population : list Document) (k : nat)
  : list Document * nat :=
  let j := state mod (length population) in
  (firstn k (skipn j population ++ firstn j population), S state).

(** *** Example trees *)

Definition small (content : string) : file_data := mkFile 10 (Some [content]).

(** A large Markdown file in [Projects]. *)
Definition large_project_notes : list node :=
  [Dir "Projects" [Dir "Plant" [File "notes.md" (mkFile 100001 (Some ["notes"]))]]].

(** A large PDF in [Projects]. *)
Definition large_project_pdf : list node :=
  [Dir "Projects" [Dir "Plant" [File "report.pdf" (mkFile 100001 (Some ["page"]))]]].

(** A package below [node_modules], a hidden directory and a hidden file. *)
Definition tooling_tree : list node :=
  [Dir "webapp"
     [Dir "node_modules" [Dir "left-pad" [File "README.md" (small "left-pad")]];
      Dir ".git" [File "description.txt" (small "hidden directory")];
      File ".env.txt" (small "hidden file");
      File "index.js" (small "code")]].

(** More than 5000 chunks. *)
Definition many_chunks : list Document :=
  repeat (mkDocument "chunk" [("source", "/corpus/a.txt")]) 5001.

End Corpus.

(** ** Diversity retriever ([EnhancedRetriever] in [src/improved_rag.py]) *)

Module Retriever.

(** [project_groups]: a [defaultdict(list)], which keeps its keys in
    the order of their first insertion. *)
Definition groups : Type := list (string * list Document).

(** [project_groups[project].append(doc)] *)
Fixpoint group_add (g : groups) (project : string) (doc : Document) : groups :=
  match g with
  | [] => [(project, [doc])]
  | (k, docs) :: g' =>
      if String.eqb k project then (k, docs ++ [doc]) :: g'
      else (k, docs) :: group_add g' project doc
  end.

(** [doc.metadata.get('project')] *)
Definition project_of (doc : Document) : option string :=
  meta_get "project" (metadata doc).

(** The test [project and project != 'Unknown'] on a label. *)
Definition is_project_label (project : string) : bool :=
  negb (String.eqb project EmptyString) && negb (String.eqb project "Unknown").

(** The test [project and project != 'Unknown'] on a candidate. *)
Definition is_grouped (doc : Document) : bool :=
  match project_of doc with
  | Some project => is_project_label project
  | None => false
  end.

(** One iteration of the grouping loop over the candidates; the state is
    [(project_groups, other_docs)]. *)
Definition group_step (st : groups * list Document) (doc : Document)
  : groups * list Document :=
  let '(project_groups, other_docs) := st in
  match project_of doc with
  | Some project =>
      if is_project_label project
      then (group_add project_groups project doc, other_docs)
      else (project_groups, other_docs ++ [doc])
  | None => (project_groups, other_docs ++ [doc])
  end.

Definition group_candidates (candidates : list Document) : groups * list Document :=
  fold_left group_step candidates ([], []).

(** The selection of [_get_diverse_project_documents] once the
    candidates are known. *)
Definition select_diverse (candidates : list Document) : list Document :=
  let '(project_groups, other_docs) := group_candidates candidates in
  let selected_docs :=
    flat_map (fun '(_, docs) => firstn 4 docs) project_groups in
  let selected_docs := selected_docs ++ firstn 5 other_docs in
  firstn 25 selected_docs.

Definition project_keywords : list string :=
  ["projects"; "working on"; "current projects"; "all projects"].

Definition is_project_query (query : string) : bool :=
  PyStr.any_in project_keywords (PyStr.lower query).

Section WithIndex.

(** [self.vectorstore.similarity_search(query, k=...)], the external
    index. *)
Variable similarity_search : string -> nat -> list Document.

(** [self.base_k], set by the only constructor call to its default. *)
Variable base_k : nat.

Definition _get_diverse_project_documents (query : string) : list Document :=
  select_diverse (similarity_search query base_k).

Definition _get_relevant_documents (query : string) : list Document :=
  if is_project_query query
  then _get_diverse_project_documents query
  else similarity_search query (Nat.min base_k 25).

End WithIndex.

Definition default_base_k : nat := 30.

(** Number of documents of a list that carry the project label [p]. *)
Definition has_project (p : string) (doc : Document) : bool :=
  match project_of doc with
  | Some q => String.eqb q p
  | None => false
  end.

Definition count_project (p : string) (docs : list Document) : nat :=
  length (filter (has_project p) docs).

(** Reading the dictionary: its keys in order, and the list stored under
    a key (empty when the key is absent). *)
Definition keys (g : groups) : list string := map fst g.

Fixpoint lookup (g : groups) (k : string) : list Document :=
  match g with
  | [] => []
  | (k', docs) :: g' => if String.eqb k' k then docs else lookup g' k
  end.

(** The candidates that the loop files under the key [k]. *)
Definition in_group (k : string) (doc : Document) : bool :=
  is_grouped doc && has_project k doc.

Definition ungrouped (doc : Document) : bool := negb (is_grouped doc).

(** The state of the grouping loop after the candidates [cands]. *)
Definition grouped_as (cands : list Document) (st : groups * list Document) : Prop :=
  NoDup (keys (fst st)) /\
  (forall k, lookup (fst st) k = filter (in_group k) cands) /\
  (forall k, In k (keys (fst st)) <-> filter (in_group k) cands <> []) /\
  snd st = filter ungrouped cands.

(** The grouped part of the selection: up to four documents of each
    group, the groups in the order of their first candidate. *)
Definition grouped_selection (candidates : list Document) : list Document :=
  flat_map (fun k => firstn 4 (filter (in_group k) candidates))
           (keys (fst (group_candidates candidates))).

(** The ungrouped part: up to five of the other candidates. *)
Definition other_selection (candidates : list Document) : list Document :=
  firstn 5 (filter ungrouped candidates).

(** A candidate with the given text and project label. *)
Definition labelled (content project : string) : Document :=
  mkDocument content [("source", content); ("project", project)].

Definition unlabelled (content : string) : Document :=
  mkDocument content [("source", content)].

(** The scenario of the specification: thirty candidates, five of each
    of six projects, interleaved. *)
Definition six_projects : list string :=
  ["Alpha"; "Beta"; "Gamma"; "Delta"; "Epsilon"; "Zeta"].

Definition thirty_candidates : list Document :=
  flat_map (fun i => map (fun p => labelled (p ++ " #" ++ i)%string p) six_projects)
           ["1"; "2"; "3"; "4"; "5"].

(** The example of the specification: twenty-five candidates of one
    project, then five without a label. *)
Definition dominated_candidates : list Document :=
  repeat (labelled "passage" "Alpha") 25 ++ repeat (unlabelled "note") 5.

(** Six candidates that carry the label ["Unknown"]. *)
Definition unknown_candidates : list Document :=
  map (fun i => labelled i "Unknown") ["1"; "2"; "3"; "4"; "5"; "6"].

End Retriever.

(** ** The order of the groups *)

Module GroupOrder.

Import Retriever.

(** The labels of a list in the order of their first occurrence. *)
Fixpoint first_seen (labels : list string) : list string :=
  match labels with
  | [] => []
  | p :: rest => p :: filter (fun q => negb (String.eqb q p)) (first_seen rest)
  end.

(** The labels under which the grouping loop files the candidates, one
    per grouped candidate, in the order of the candidates. *)
Definition grouped_labels (candidates : list Document) : list string :=
  flat_map (fun doc =>
              match project_of doc with
              | Some project => if is_project_label project then [project] else []
              | None => []
              end) candidates.

(** [q not in ks] *)
Definition notin (ks : list string) (q : string) : bool :=
  negb (existsb (String.eqb q) ks).

(** Candidates that differ in their text. *)
Definition distinct_candidates : list Document :=
  [labelled "a1" "Alpha"; unlabelled "n1"; labelled "b1" "Beta";
   labelled "a2" "Alpha"; labelled "u1" "Unknown"; labelled "b2" "Beta"].

End GroupOrder.

(** ** Question routing ([ImprovedRAGPipeline] in [src/improved_rag.py]) *)

Module Pipeline.

(** The phrases of [_is_comprehensive_project_query]. *)
Definition comprehensive_keywords : list string :=
  ["what projects"; "all projects"; "current projects";
   "list projects"; "projects working on"; "company projects"].

Definition _is_comprehensive_project_query (question : string) : bool :=
  PyStr.any_in comprehensive_keywords (PyStr.lower question).

End Pipeline.

(** ** Breakdowns by label *)

Module Breakdown.

(** [counts[label] = counts.get(label, 0) + 1] on a dictionary, which
    keeps its keys in the order of their first insertion. *)
Fixpoint bump (label : string) (counts : list (string * nat)) : list (string * nat) :=
  match counts with
  | [] => [(label, 1)]
  | (k, n) :: counts' =>
      if String.eqb k label then (k, S n) :: counts'
      else (k, n) :: bump label counts'
  end.

(** [metadata.get(key, default)] *)
Definition label_of (key default : string) (doc : Document) : string :=
  match meta_get key (metadata doc) with
  | Some v => v
  | None => default
  end.

(** The counting loops of [load_enhanced_project_documents] (key
    ['project'], default ['Unknown']) and of the retrieval test; the one
    of [get_stats] is the same over ['doc_type'] and ['unknown']. *)
Definition breakdown (key default : string) (docs : list Document)
  : list (string * nat) :=
  fold_left (fun counts doc => bump (label_of key default doc) counts) docs [].

(** [counts.get(label, 0)] *)
Fixpoint count_of (label : string) (counts : list (string * nat)) : nat :=
  match counts with
  | [] => 0
  | (k, n) :: counts' => if String.eqb k label then n else count_of label counts'
  end.

Definition total (counts : list (string * nat)) : nat :=
  fold_right (fun kn acc => snd kn + acc) 0 counts.

End Breakdown.

(** * Properties *)

(** ** Lists *)

Module ListFacts.

Lemma In_firstn {A} (x : A) n l : In x (firstn n l) -> In x l.
Proof.
  revert n. induction l as [|y l IH]; intros [|n]; simpl; try tauto.
  intros [H | H]; [now left | right; eauto].
Qed.

Lemma Forall_firstn {A} (P : A -> Prop) n l : Forall P l -> Forall P (firstn n l).
Proof.
  rewrite !Forall_forall. intros H x Hx. apply H. eapply In_firstn; eauto.
Qed.

End ListFacts.

Module RetrieverFacts.

Import Retriever.

Lemma keys_group_add_In g p d k :
  In k (keys (group_add g p d)) <-> In k (keys g) \/ k = p.
Proof.
  induction g as [|[k0 ds0] g IH]; simpl.
  - intuition.
  - destruct (String.eqb k0 p) eqn:E; simpl.
    + apply String.eqb_eq in E. subst k0. intuition.
    + unfold keys in IH. rewrite IH. intuition.
Qed.

Lemma keys_group_add_NoDup g p d :
  NoDup (keys g) -> NoDup (keys (group_add g p d)).
Proof.
  induction g as [|[k0 ds0] g IH]; simpl; intros H.
  - constructor; [intros [] | constructor].
  - inversion H as [|? ? Hnot Hnd]; subst.
    destruct (String.eqb k0 p) eqn:E; simpl.
    + constructor; assumption.
    + constructor; [|apply IH; assumption].
      intros Hin. apply keys_group_add_In in Hin.
      destruct Hin as [Hin | ->]; [contradiction|].
      rewrite String.eqb_refl in E. discriminate.
Qed.

Lemma lookup_group_add g p d k :
  lookup (group_add g p d) k =
  if String.eqb p k then lookup g k ++ [d] else lookup g k.
Proof.
  induction g as [|[k0 ds0] g IH]; simpl.
  - destruct (String.eqb p k); reflexivity.
  - destruct (String.eqb k0 p) eqn:E; simpl.
    + apply String.eqb_eq in E. subst k0.
      destruct (String.eqb p k); reflexivity.
    + destruct (String.eqb k0 k) eqn:E'; [|exact IH].
      apply String.eqb_eq in E'. subst k0. rewrite String.eqb_sym, E.
      reflexivity.
Qed.

Lemma lookup_not_key g k : ~ In k (keys g) -> lookup g k = [].
Proof.
  induction g as [|[k0 ds0] g IH]; simpl; intros H; [reflexivity|].
  destruct (String.eqb k0 k) eqn:E.
  - apply String.eqb_eq in E. tauto.
  - apply IH. tauto.
Qed.

(** An insertion-ordered dictionary is the table of its keys. *)
Lemma groups_table g :
  NoDup (keys g) -> g = map (fun k => (k, lookup g k)) (keys g).
Proof.
  induction g as [|[k0 ds0] g IH]; simpl; intros H; [reflexivity|].
  inversion H as [|? ? Hnot Hnd]; subst.
  rewrite String.eqb_refl. f_equal.
  rewrite (IH Hnd) at 1. apply map_ext_in.
  intros k Hk. destruct (String.eqb k0 k) eqn:E; [|reflexivity].
  apply String.eqb_eq in E. subst. contradiction.
Qed.

Lemma has_project_grouped p d :
  has_project p d = true -> is_grouped d = is_project_label p.
Proof.
  unfold has_project, is_grouped. destruct (project_of d) as [q|]; [|discriminate].
  intros E. apply String.eqb_eq in E. now subst.
Qed.

Lemma has_project_unique p q d :
  has_project p d = true -> has_project q d = true -> p = q.
Proof.
  unfold has_project. destruct (project_of d) as [r|]; [|discriminate].
  intros E1 E2. apply String.eqb_eq in E1, E2. congruence.
Qed.

Lemma group_step_grouped_as cands st d :
  grouped_as cands st -> grouped_as (cands ++ [d]) (group_step st d).
Proof.
  destruct st as [g o]. intros (Hnd & Hlk & Hkeys & Hoth). simpl in *.
  unfold group_step.
  assert (Hcase :
    (exists p, project_of d = Some p /\ is_project_label p = true) \/
    is_grouped d = false).
  { unfold is_grouped. destruct (project_of d) as [p|]; [|now right].
    destruct (is_project_label p) eqn:E; [left; eauto | now right]. }
  destruct Hcase as [(p & Hp & Hlab) | Hun].
  - rewrite Hp, Hlab. unfold grouped_as. simpl.
    assert (Hg : is_grouped d = true) by (unfold is_grouped; now rewrite Hp).
    assert (Hin : forall k, in_group k d = String.eqb p k).
    { intros k. unfold in_group, has_project. now rewrite Hg, Hp. }
    repeat split.
    + now apply keys_group_add_NoDup.
    + intros k. rewrite lookup_group_add, filter_app, Hlk. simpl.
      rewrite Hin. destruct (String.eqb p k); [reflexivity | now rewrite app_nil_r].
    + rewrite keys_group_add_In, filter_app. simpl. rewrite Hin.
      intros [Hk | ->].
      * apply Hkeys in Hk. destruct (filter (in_group k) cands); [tauto|discriminate].
      * rewrite String.eqb_refl. intros E. apply app_eq_nil in E. destruct E; discriminate.
    + rewrite keys_group_add_In, filter_app. simpl. rewrite Hin.
      destruct (String.eqb p k) eqn:E.
      * intros _. right. apply String.eqb_eq in E. now subst.
      * rewrite app_nil_r. intros H. left. now apply Hkeys.
    + rewrite filter_app. simpl. unfold ungrouped at 2. rewrite Hg. simpl.
      now rewrite app_nil_r.
  - assert (Hin : forall k, in_group k d = false).
    { intros k. unfold in_group. now rewrite Hun. }
    assert (Hst : (match project_of d with
                   | Some project =>
                       if is_project_label project
                       then (group_add g project d, o)
                       else (g, o ++ [d])
                   | None => (g, o ++ [d])
                   end) = (g, o ++ [d])).
    { unfold is_grouped in Hun. destruct (project_of d) as [p|]; [|reflexivity].
      now rewrite Hun. }
    rewrite Hst. unfold grouped_as. simpl.
    repeat split.
    + assumption.
    + intros k. rewrite filter_app. simpl. rewrite Hin, app_nil_r. apply Hlk.
    + rewrite filter_app. simpl. rewrite Hin, app_nil_r. apply Hkeys.
    + rewrite filter_app. simpl. rewrite Hin, app_nil_r. apply Hkeys.
    + rewrite filter_app. simpl. unfold ungrouped at 2. rewrite Hun. simpl.
      now rewrite Hoth.
Qed.

Lemma group_candidates_grouped_as cands :
  grouped_as cands (group_candidates cands).
Proof.
  unfold group_candidates.
  induction cands as [|d cands IH] using rev_ind.
  - simpl. unfold grouped_as. simpl. repeat split; try constructor; tauto.
  - rewrite fold_left_app. simpl. now apply group_step_grouped_as.
Qed.

Lemma select_diverse_parts cands :
  select_diverse cands =
  firstn 25 (grouped_selection cands ++ other_selection cands).
Proof.
  unfold select_diverse, grouped_selection, other_selection.
  pose proof (group_candidates_grouped_as cands) as (Hnd & Hlk & _ & Hoth).
  destruct (group_candidates cands) as [g o]. cbn [fst snd] in *.
  subst o. do 2 f_equal.
  rewrite (groups_table g Hnd) at 1.
  rewrite !flat_map_concat_map, map_map. f_equal. apply map_ext.
  intros k. now rewrite Hlk.
Qed.

Lemma count_project_app p l1 l2 :
  count_project p (l1 ++ l2) = count_project p l1 + count_project p l2.
Proof. unfold count_project. now rewrite filter_app, length_app. Qed.

Lemma count_project_firstn p n l :
  count_project p (firstn n l) <= count_project p l.
Proof.
  unfold count_project. revert n.
  induction l as [|d l IH]; intros [|n]; simpl; try lia.
  specialize (IH n). destruct (has_project p d); simpl; lia.
Qed.

Lemma count_project_le_length p l : count_project p l <= length l.
Proof. apply filter_length_le. Qed.

Lemma count_project_none p l :
  (forall d, In d l -> has_project p d = false) -> count_project p l = 0.
Proof.
  unfold count_project. induction l as [|d l IH]; simpl; intros H; [reflexivity|].
  rewrite (H d (or_introl eq_refl)). apply IH. intros; apply H; now right.
Qed.

Lemma in_group_has_project k d : in_group k d = true -> has_project k d = true.
Proof. unfold in_group. intros H. now apply andb_prop in H. Qed.

Lemma count_project_other_group p k n cands :
  k <> p -> count_project p (firstn n (filter (in_group k) cands)) = 0.
Proof.
  intros Hne. apply count_project_none. intros d Hd.
  apply ListFacts.In_firstn, filter_In in Hd. destruct Hd as [_ Hd].
  apply in_group_has_project in Hd.
  destruct (has_project p d) eqn:E; [|reflexivity].
  exfalso. apply Hne. eapply has_project_unique; eassumption.
Qed.

Lemma has_project_none_in_group p k n cands d :
  k <> p -> In d (firstn n (filter (in_group k) cands)) -> has_project p d = false.
Proof.
  intros Hne Hd.
  apply ListFacts.In_firstn, filter_In in Hd. destruct Hd as [_ Hd].
  apply in_group_has_project in Hd.
  destruct (has_project p d) eqn:E; [|reflexivity].
  exfalso. apply Hne. eapply has_project_unique; eassumption.
Qed.

Lemma count_project_groups p ks cands :
  NoDup ks ->
  count_project p
    (flat_map (fun k => firstn 4 (filter (in_group k) cands)) ks) <= 4.
Proof.
  induction ks as [|k ks IH]; cbn [flat_map]; intros Hnd; [cbv; lia|].
  inversion Hnd as [|? ? Hnot Hnd']; subst.
  rewrite count_project_app.
  destruct (String.eqb_spec k p) as [E | Hne].
  - subst k.
    rewrite (count_project_none p (flat_map _ ks)).
    + pose proof (count_project_le_length p (firstn 4 (filter (in_group p) cands))).
      pose proof (firstn_le_length 4 (filter (in_group p) cands)). lia.
    + intros d Hd. apply in_flat_map in Hd. destruct Hd as (k & Hk & Hd).
      apply (has_project_none_in_group p k 4 cands d); [|assumption].
      intros ->. contradiction.
  - rewrite count_project_other_group by assumption. now apply IH.
Qed.

Lemma count_project_others p cands :
  is_project_label p = true -> count_project p (other_selection cands) = 0.
Proof.
  intros Hp. apply count_project_none. intros d Hd.
  apply ListFacts.In_firstn, filter_In in Hd. destruct Hd as [_ Hd].
  destruct (has_project p d) eqn:E; [|reflexivity].
  apply has_project_grouped in E. unfold ungrouped in Hd.
  rewrite E, Hp in Hd. discriminate.
Qed.

Lemma select_diverse_length cands : length (select_diverse cands) <= 25.
Proof. unfold select_diverse. destruct (group_candidates cands). apply firstn_le_length. Qed.

Lemma select_diverse_cap cands p :
  is_project_label p = true -> count_project p (select_diverse cands) <= 4.
Proof.
  intros Hp. rewrite select_diverse_parts.
  etransitivity; [apply count_project_firstn|].
  rewrite count_project_app, count_project_others by assumption.
  rewrite Nat.add_0_r. apply count_project_groups.
  apply (group_candidates_grouped_as cands).
Qed.

Lemma group_step_grouped d :
  is_grouped d = true ->
  exists p, project_of d = Some p /\ is_project_label p = true /\
            forall g o, group_step (g, o) d = (group_add g p d, o).
Proof.
  unfold is_grouped, group_step. destruct (project_of d) as [p|]; [|discriminate].
  intros H. exists p. rewrite H. auto.
Qed.

Lemma group_step_ungrouped d :
  is_grouped d = false -> forall g o, group_step (g, o) d = (g, o ++ [d]).
Proof.
  unfold is_grouped, group_step. destruct (project_of d) as [p|]; [|reflexivity].
  intros H g o. now rewrite H.
Qed.

(** The ungrouped candidates leave the dictionary of groups untouched. *)
Lemma groups_ignore_ungrouped cands g o o' :
  fst (fold_left group_step cands (g, o)) =
  fst (fold_left group_step (filter is_grouped cands) (g, o')).
Proof.
  revert g o o'. induction cands as [|d cands IH]; intros g o o'; [reflexivity|].
  cbn [fold_left filter]. destruct (is_grouped d) eqn:E.
  - destruct (group_step_grouped d E) as (p & _ & _ & Hstep).
    cbn [fold_left]. rewrite !Hstep. apply IH.
  - rewrite (group_step_ungrouped d E). apply IH.
Qed.

Lemma keys_are_labels cands k :
  In k (keys (fst (group_candidates cands))) -> is_project_label k = true.
Proof.
  intros Hk. apply (group_candidates_grouped_as cands) in Hk.
  destruct (filter (in_group k) cands) as [|d l] eqn:E; [tauto|].
  assert (Hd : In d (filter (in_group k) cands)) by (rewrite E; now left).
  apply filter_In in Hd. destruct Hd as [_ Hd]. unfold in_group in Hd.
  apply andb_prop in Hd. destruct Hd as [Hg Hp].
  now rewrite <- (has_project_grouped k d Hp).
Qed.

Lemma grouped_selection_grouped cands :
  Forall (fun d => is_grouped d = true) (grouped_selection cands).
Proof.
  apply Forall_forall. intros d Hd. unfold grouped_selection in Hd.
  apply in_flat_map in Hd. destruct Hd as (k & _ & Hd).
  apply ListFacts.In_firstn, filter_In in Hd. destruct Hd as [_ Hd].
  unfold in_group in Hd. now apply andb_prop in Hd.
Qed.

Lemma other_selection_ungrouped cands :
  Forall (fun d => is_grouped d = false) (other_selection cands).
Proof.
  apply Forall_forall. intros d Hd. unfold other_selection in Hd.
  apply ListFacts.In_firstn, filter_In in Hd. destruct Hd as [_ Hd].
  unfold ungrouped in Hd. now apply negb_true_iff in Hd.
Qed.

Lemma other_selection_length cands : length (other_selection cands) <= 5.
Proof. apply firstn_le_length. Qed.

Lemma filter_none {A} (f : A -> bool) l :
  Forall (fun x => f x = false) l -> filter f l = [].
Proof.
  induction 1 as [|x l Hx _ IH]; simpl; [reflexivity|]. now rewrite Hx.
Qed.

Lemma filter_length_firstn {A} (f : A -> bool) n l :
  length (filter f (firstn n l)) <= length (filter f l).
Proof.
  revert n. induction l as [|x l IH]; intros [|n]; simpl; try lia.
  specialize (IH n). destruct (f x); simpl; lia.
Qed.

Lemma select_diverse_ungrouped_quota cands :
  length (filter ungrouped (select_diverse cands)) <= 5.
Proof.
  rewrite select_diverse_parts.
  etransitivity; [apply filter_length_firstn|].
  rewrite filter_app, length_app, (filter_none ungrouped (grouped_selection cands)).
  - simpl. etransitivity; [apply filter_length_le | apply other_selection_length].
  - eapply Forall_impl; [|apply grouped_selection_grouped].
    intros d Hd. unfold ungrouped. now rewrite Hd.
Qed.

Lemma length_flat_map_const {A B} (f : A -> list B) n l :
  (forall x, In x l -> length (f x) = n) -> length (flat_map f l) = n * length l.
Proof.
  induction l as [|x l IH]; simpl; intros H; [lia|].
  rewrite length_app, IH, (H x) by auto. lia.
Qed.

Lemma in_group_label p d :
  is_project_label p = true -> in_group p d = has_project p d.
Proof.
  intros Hp. unfold in_group. destruct (has_project p d) eqn:E.
  - now rewrite (has_project_grouped p d E), Hp.
  - apply andb_false_r.
Qed.

(** Candidates of [n] projects, [m] of each, no other: the selection
    before truncation holds [min 4 m] documents of each project. *)
Lemma grouped_selection_uniform cands projs m :
  NoDup projs ->
  (forall p, In p projs -> is_project_label p = true /\ count_project p cands = S m) ->
  (forall d, In d cands -> exists p, In p projs /\ project_of d = Some p) ->
  length (grouped_selection cands) = Nat.min 4 (S m) * length projs /\
  other_selection cands = [].
Proof.
  intros Hnd Hcount Hall.
  pose proof (group_candidates_grouped_as cands) as (Hkn & _ & Hkeys & _).
  assert (Hgrp : forall p, In p projs ->
                   length (filter (in_group p) cands) = S m).
  { intros p Hp. destruct (Hcount p Hp) as [Hl Hc].
    rewrite (filter_ext (in_group p) (has_project p)); [exact Hc|].
    intros d. now apply in_group_label. }
  assert (Hsub : incl (keys (fst (group_candidates cands))) projs).
  { intros k Hk. apply Hkeys in Hk.
    destruct (filter (in_group k) cands) as [|d l] eqn:E; [tauto|].
    assert (Hd : In d (filter (in_group k) cands)) by (rewrite E; now left).
    apply filter_In in Hd. destruct Hd as [Hd Hin].
    apply in_group_has_project in Hin.
    destruct (Hall d Hd) as (p & Hp & Hproj).
    unfold has_project in Hin. rewrite Hproj in Hin.
    apply String.eqb_eq in Hin. now subst. }
  assert (Hsup : incl projs (keys (fst (group_candidates cands)))).
  { intros p Hp. apply Hkeys. intros E.
    specialize (Hgrp p Hp). rewrite E in Hgrp. discriminate. }
  split.
  - unfold grouped_selection.
    rewrite (length_flat_map_const _ (Nat.min 4 (S m))).
    + f_equal. apply Nat.le_antisymm; now apply NoDup_incl_length.
    + intros k Hk. rewrite length_firstn, (Hgrp k); auto.
  - unfold other_selection. rewrite filter_none; [reflexivity|].
    apply Forall_forall. intros d Hd.
    destruct (Hall d Hd) as (p & Hp & Hproj).
    unfold ungrouped, is_grouped. rewrite Hproj.
    destruct (Hcount p Hp) as [-> _]. reflexivity.
Qed.

(** One project that dominates the candidates gets four places, the five
    unlabelled candidates follow. *)
Lemma dominated_by_one_project :
  select_diverse dominated_candidates
  = repeat (labelled "passage" "Alpha") 4 ++ repeat (unlabelled "note") 5.
Proof. reflexivity. Qed.

(** Five candidates labelled ["Unknown"] come back: that label is under
    the quota of the ungrouped candidates, not under the cap of a group. *)
Lemma unknown_label_takes_quota :
  count_project "Unknown" (select_diverse unknown_candidates) = 5.
Proof. reflexivity. Qed.

End RetrieverFacts.

(** ** The diversity retriever *)

Module RetrieverSpec.

Import Retriever RetrieverFacts.

(** C1. Broad mode: for every query that matches a diversity phrase and
    whatever candidates the index returns, the retriever returns at most
    k = 25 documents and at most four documents of any single project
    label (a label that forms a group: not empty and not ["Unknown"]);
    and when the thirty candidates are five of each of six projects, the
    result holds exactly 24 documents. *)
Theorem broad_mode_k_and_group_cap :
  forall (similarity_search : string -> nat -> list Document)
         (base_k : nat) (query : string),
    is_project_query query = true ->
    let candidates := similarity_search query base_k in
    let result := _get_relevant_documents similarity_search base_k query in
    length result <= 25 /\
    (forall p, is_project_label p = true -> count_project p result <= 4) /\
    (forall projs,
        length candidates = 30 ->
        NoDup projs -> length projs = 6 ->
        (forall p, In p projs ->
                   is_project_label p = true /\ count_project p candidates = 5) ->
        (forall d, In d candidates ->
                   exists p, In p projs /\ project_of d = Some p) ->
        length result = 24).
Proof.
  intros ss base_k query Hq candidates result.
  assert (Hres : result = select_diverse candidates).
  { unfold result, _get_relevant_documents. now rewrite Hq. }
  rewrite Hres. split; [apply select_diverse_length|]. split.
  - intros p Hp. now apply select_diverse_cap.
  - intros projs _ Hnd Hlen Hcount Hall.
    destruct (grouped_selection_uniform candidates projs 4 Hnd Hcount Hall)
      as [Hsel Hoth].
    rewrite select_diverse_parts, Hoth, app_nil_r, length_firstn, Hsel, Hlen.
    reflexivity.
Qed.

Lemma broad_mode_k_and_group_cap_witness :
  let index := fun (_ : string) (_ : nat) => thirty_candidates in
  let result := _get_relevant_documents index default_base_k "List all projects" in
  is_project_query "List all projects" = true /\
  length result <= 25 /\ count_project "Alpha" result <= 4 /\ length result = 24.
Proof.
  intros index result.
  pose proof (broad_mode_k_and_group_cap index default_base_k "List all projects"
                eq_refl) as (Hk & Hcap & Hsix).
  split; [reflexivity|]. split; [exact Hk|]. split; [apply Hcap; reflexivity|].
  apply (Hsix six_projects).
  - reflexivity.
  - repeat constructor; simpl; intuition discriminate.
  - reflexivity.
  - intros p Hp. simpl in Hp.
    repeat (destruct Hp as [<- | Hp]; [split; reflexivity|]). destruct Hp.
  - intros d Hd. simpl in Hd.
    repeat (destruct Hd as [<- | Hd];
            [eexists; split; [|reflexivity]; simpl; tauto|]).
    destruct Hd.
Defined.

(** C4. Narrow mode: for every query whose lower-cased text contains none
    of the diversity phrases, the retriever returns exactly the list that
    the similarity primitive returns for [min(base_k, 25)] results. *)
Theorem narrow_mode_is_plain_search :
  forall (similarity_search : string -> nat -> list Document)
         (base_k : nat) (query : string),
    (forall phrase, In phrase project_keywords ->
                    PyStr.contains phrase (PyStr.lower query) = false) ->
    _get_relevant_documents similarity_search base_k query =
    similarity_search query (Nat.min base_k 25).
Proof.
  intros ss base_k query Hno. unfold _get_relevant_documents.
  assert (is_project_query query = false) as ->; [|reflexivity].
  unfold is_project_query, PyStr.any_in.
  destruct (existsb _ project_keywords) eqn:E; [|reflexivity].
  apply existsb_exists in E. destruct E as (phrase & Hin & Hc).
  rewrite (Hno phrase Hin) in Hc. discriminate.
Qed.

Lemma narrow_mode_is_plain_search_witness :
  let index := fun (_ : string) (n : nat) => firstn n thirty_candidates in
  _get_relevant_documents index default_base_k "How was the SQL Server upgrade tested?" =
  firstn 25 thirty_candidates.
Proof.
  intros index.
  apply (narrow_mode_is_plain_search index default_base_k
           "How was the SQL Server upgrade tested?").
  intros phrase Hin. simpl in Hin.
  repeat (destruct Hin as [<- | Hin]; [reflexivity|]). destruct Hin.
Defined.

(** C10. Broad mode: a candidate without project metadata, or with the
    label ["Unknown"] (or an empty one), is never filed under a group: no
    group has such a key, the groups are those of the other candidates
    alone, the result is the grouped selection followed by at most five
    such candidates, and grouped documents only make up the grouped
    selection. *)
Theorem unknown_is_never_a_group :
  forall (similarity_search : string -> nat -> list Document)
         (base_k : nat) (query : string),
    let candidates := similarity_search query base_k in
    let result := _get_diverse_project_documents similarity_search base_k query in
    let project_groups := fst (group_candidates candidates) in
    ~ In "Unknown" (keys project_groups) /\
    (forall d, In d candidates -> is_grouped d = false ->
               forall k, ~ In d (lookup project_groups k)) /\
    project_groups = fst (group_candidates (filter is_grouped candidates)) /\
    result = firstn 25 (grouped_selection candidates ++ other_selection candidates) /\
    Forall (fun d => is_grouped d = true) (grouped_selection candidates) /\
    Forall (fun d => is_grouped d = false) (other_selection candidates) /\
    length (other_selection candidates) <= 5 /\
    length (filter ungrouped result) <= 5.
Proof.
  intros ss base_k query candidates result project_groups.
  split.
  { intros Hk. apply keys_are_labels in Hk. discriminate. }
  split.
  { intros d _ Hd k Hin.
    destruct (group_candidates_grouped_as candidates) as (_ & Hlk & _).
    fold project_groups in Hlk. rewrite Hlk in Hin.
    apply filter_In in Hin. destruct Hin as [_ Hin].
    unfold in_group in Hin. rewrite Hd in Hin. discriminate. }
  split; [apply groups_ignore_ungrouped|].
  split; [apply select_diverse_parts|].
  split; [apply grouped_selection_grouped|].
  split; [apply other_selection_ungrouped|].
  split; [apply other_selection_length|].
  apply select_diverse_ungrouped_quota.
Qed.

End RetrieverSpec.

(** ** The classifier *)

Module ClassifierSpec.

Import Classifier.

Lemma contains_slash_cons c s :
  PyStr.contains "/" (String c s) = false ->
  Ascii.eqb c PyStr.slash = false /\ PyStr.contains "/" s = false.
Proof.
  cbn [PyStr.contains String.prefix]. unfold PyStr.slash.
  destruct (ascii_dec "/" c) as [<- | Hne].
  - destruct s; discriminate.
  - intros H. split; [|exact H].
    apply Ascii.eqb_neq. congruence.
Qed.

Lemma append_assoc_char (cur : string) c s :
  ((cur ++ String c EmptyString) ++ s)%string = (cur ++ String c s)%string.
Proof. induction cur as [|a cur IH]; simpl; [reflexivity | now rewrite IH]. Qed.

Lemma split_acc_no_sep cur s :
  PyStr.contains "/" s = false ->
  PyStr.split_acc PyStr.slash cur s = [(cur ++ s)%string].
Proof.
  revert cur. induction s as [|c s IH]; intros cur H.
  - simpl. f_equal. induction cur as [|a cur IHc]; simpl; [reflexivity | now f_equal].
  - apply contains_slash_cons in H. destruct H as [Hc Hs].
    cbn [PyStr.split_acc]. rewrite Hc, (IH _ Hs). now rewrite append_assoc_char.
Qed.

Lemma split_no_slash s :
  PyStr.contains "/" s = false -> PyStr.split PyStr.slash s = [s].
Proof. intros H. unfold PyStr.split. now rewrite split_acc_no_sep. Qed.

Lemma basename_no_slash s : PyStr.contains "/" s = false -> PyStr.basename s = s.
Proof. intros H. unfold PyStr.basename. now rewrite split_no_slash. Qed.

(** A path without any directory falls through the folder loop. *)
Lemma bare_name_general_project name :
  PyStr.contains "/" name = false ->
  first_rule path_rules (PyStr.lower name) = None ->
  determine_project_name name = "General Project".
Proof.
  intros Hs Hr. unfold determine_project_name.
  rewrite Hr, split_no_slash, basename_no_slash by assumption.
  cbn [rev app from_folders]. now rewrite String.eqb_refl.
Qed.

(** *** Relative paths of files below the root *)

Lemma split_acc_app_slash cur x s :
  PyStr.contains "/" x = false ->
  PyStr.split_acc PyStr.slash cur (x ++ String "/" s)%string
  = (cur ++ x)%string :: PyStr.split_acc PyStr.slash EmptyString s.
Proof.
  revert cur. induction x as [|c x IH]; intros cur H.
  - cbn. f_equal. induction cur as [|a cur IHc]; simpl; [reflexivity | now f_equal].
  - apply contains_slash_cons in H. destruct H as [Hc Hx].
    cbn [String.append PyStr.split_acc]. rewrite Hc, (IH _ Hx).
    now rewrite append_assoc_char.
Qed.

Lemma regular_spec comp :
  PyStr.regular comp = true ->
  comp <> EmptyString /\ PyStr.contains "/" comp = false /\ comp <> "." /\ comp <> "..".
Proof.
  unfold PyStr.regular, PyStr.nonempty. intros H.
  apply andb_prop in H. destruct H as [H H4].
  apply andb_prop in H. destruct H as [H H3].
  apply andb_prop in H. destruct H as [H1 H2].
  apply negb_true_iff in H1, H2, H3, H4.
  apply String.eqb_neq in H1, H3, H4. auto.
Qed.

Lemma split_join comps :
  comps <> [] -> Forall (fun c => PyStr.regular c = true) comps ->
  PyStr.split PyStr.slash (PyStr.join "/" comps) = comps.
Proof.
  induction comps as [|x comps IH]; [congruence|]. intros _ H.
  inversion H as [|? ? Hx Hrest]; subst.
  apply regular_spec in Hx. destruct Hx as (_ & Hx & _).
  destruct comps as [|y comps].
  - cbn [PyStr.join]. now apply split_no_slash.
  - change (PyStr.join "/" (x :: y :: comps))
      with (x ++ String "/" (PyStr.join "/" (y :: comps)))%string.
    unfold PyStr.split. rewrite split_acc_app_slash by assumption.
    cbn [String.append]. f_equal. apply IH; [discriminate | assumption].
Qed.

Lemma filter_nonempty_regular comps :
  Forall (fun c => PyStr.regular c = true) comps -> filter PyStr.nonempty comps = comps.
Proof.
  induction 1 as [|x comps Hx _ IH]; [reflexivity|]. cbn [filter].
  unfold PyStr.regular in Hx. apply andb_prop in Hx. destruct Hx as [Hx _].
  apply andb_prop in Hx. destruct Hx as [Hx _].
  apply andb_prop in Hx. destruct Hx as [Hx _]. now rewrite Hx, IH.
Qed.

Lemma split_absolute comps :
  Forall (fun c => PyStr.regular c = true) comps ->
  filter PyStr.nonempty (PyStr.split PyStr.slash (PyStr.absolute comps)) = comps.
Proof.
  intros H. unfold PyStr.absolute, PyStr.split.
  change (PyStr.split_acc PyStr.slash EmptyString ("/" ++ PyStr.join "/" comps)%string)
    with (EmptyString :: PyStr.split PyStr.slash (PyStr.join "/" comps)).
  cbn [filter PyStr.nonempty String.eqb negb].
  destruct comps as [|x comps]; [reflexivity|].
  rewrite split_join by (discriminate || assumption).
  now apply filter_nonempty_regular.
Qed.

Lemma norm_step_regular stack comp :
  PyStr.regular comp = true -> PyStr.norm_step true stack comp = comp :: stack.
Proof.
  intros H. apply regular_spec in H. destruct H as (H1 & _ & H3 & H4).
  unfold PyStr.norm_step.
  apply String.eqb_neq in H1, H3, H4. now rewrite H1, H3, H4.
Qed.

Lemma fold_norm_step_regular comps stack :
  Forall (fun c => PyStr.regular c = true) comps ->
  fold_left (PyStr.norm_step true) comps stack = rev comps ++ stack.
Proof.
  intros H. revert stack. induction H as [|x comps Hx _ IH]; intros stack; [reflexivity|].
  cbn [fold_left rev]. rewrite norm_step_regular, IH by assumption.
  now rewrite <- app_assoc.
Qed.

Lemma join_no_leading_slash comps :
  Forall (fun c => PyStr.regular c = true) comps ->
  PyStr.startswith "/" (PyStr.join "/" comps) = false.
Proof.
  intros H. destruct H as [|x comps Hx _]; [reflexivity|].
  apply regular_spec in Hx. destruct Hx as (Hne & Hs & _).
  destruct x as [|c x]; [congruence|].
  apply contains_slash_cons in Hs. destruct Hs as [Hc _].
  assert (E : forall rest, PyStr.startswith "/" (String c rest) = false).
  { intros rest. unfold PyStr.startswith. cbn [String.prefix].
    unfold PyStr.slash in Hc. apply Ascii.eqb_neq in Hc.
    destruct (ascii_dec "/" c); [congruence | reflexivity]. }
  destruct comps; cbn [PyStr.join String.append]; apply E.
Qed.

Lemma startswith_absolute comps : PyStr.startswith "/" (PyStr.absolute comps) = true.
Proof.
  unfold PyStr.startswith, PyStr.absolute. cbn [String.append String.prefix].
  destruct (ascii_dec "/" "/") as [_ | Hne]; [|congruence].
  destruct (PyStr.join "/" comps); reflexivity.
Qed.

(** An absolute path of regular components is its own [abspath]. *)
Lemma abspath_absolute cwd comps :
  Forall (fun c => PyStr.regular c = true) comps ->
  PyStr.abspath cwd (PyStr.absolute comps) = PyStr.absolute comps.
Proof.
  intros H. unfold PyStr.abspath.
  assert (Hj : PyStr.path_join cwd (PyStr.absolute comps) = PyStr.absolute comps).
  { unfold PyStr.path_join. now rewrite startswith_absolute. }
  rewrite Hj. unfold PyStr.normpath.
  assert (Hcomps : PyStr.norm_comps (PyStr.absolute comps) = comps).
  { unfold PyStr.norm_comps. rewrite startswith_absolute.
    change (PyStr.split PyStr.slash (PyStr.absolute comps))
      with (EmptyString :: PyStr.split PyStr.slash (PyStr.join "/" comps)).
    cbn [fold_left]. change (PyStr.norm_step true [] EmptyString) with (@nil string).
    destruct comps as [|x comps]; [reflexivity|].
    rewrite split_join by (discriminate || assumption).
    rewrite fold_norm_step_regular by assumption.
    now rewrite app_nil_r, rev_involutive. }
  rewrite Hcomps.
  change (String.eqb (PyStr.absolute comps) EmptyString) with false.
  rewrite startswith_absolute.
  assert (Hdouble : PyStr.startswith "//" (PyStr.absolute comps)
                    = PyStr.startswith "/" (PyStr.join "/" comps)).
  { unfold PyStr.startswith, PyStr.absolute. cbn [String.append String.prefix].
    destruct (ascii_dec "/" "/") as [_ | Hne]; [reflexivity | congruence]. }
  rewrite Hdouble, join_no_leading_slash by assumption. reflexivity.
Qed.

Lemma commonprefix_app l r : PyStr.commonprefix l (l ++ r) = l.
Proof.
  induction l as [|x l IH]; [destruct r; reflexivity|].
  cbn [app PyStr.commonprefix]. now rewrite String.eqb_refl, IH.
Qed.

(** The path of a file relative to a root above it is made of the
    components below the root. *)
Lemma relpath_below cwd base_comps below :
  below <> [] ->
  Forall (fun c => PyStr.regular c = true) (base_comps ++ below) ->
  PyStr.relpath cwd (PyStr.absolute (base_comps ++ below)) (PyStr.absolute base_comps)
  = PyStr.join "/" below.
Proof.
  intros Hne H. pose proof H as Hall. apply Forall_app in H. destruct H as [Hbase Hbelow].
  unfold PyStr.relpath.
  rewrite !abspath_absolute, !split_absolute by assumption.
  rewrite commonprefix_app, Nat.sub_diag, skipn_app, skipn_all, Nat.sub_diag.
  cbn [repeat app skipn]. destruct below; [congruence | reflexivity].
Qed.

(** The document type of a file below the root: the sentinel for a file
    directly under the root, the first directory otherwise. *)
Lemma get_document_type_below cwd base_comps below :
  below <> [] ->
  Forall (fun c => PyStr.regular c = true) (base_comps ++ below) ->
  get_document_type cwd (PyStr.absolute (base_comps ++ below)) (PyStr.absolute base_comps)
  = if Nat.eqb (length below) 1 then "root_files" else hd EmptyString below.
Proof.
  intros Hne H. unfold get_document_type. rewrite relpath_below by assumption.
  apply Forall_app in H. destruct H as [_ Hbelow].
  now rewrite split_join.
Qed.

(** C2. [Projects/SQL_Server/upgrade.sql] is classified as project
    "SQL Server Upgrades" and [Projects/SFMS_Mining/report.pdf] as
    "SFMS Mining Analytics", both as the path relative to the corpus root
    and as the path under the default root; both have the document type
    "Projects", the first segment of the path relative to the root. *)
Theorem scenario_projects_classified :
  determine_project_name "Projects/SQL_Server/upgrade.sql" = "SQL Server Upgrades" /\
  determine_project_name "Projects/SFMS_Mining/report.pdf" = "SFMS Mining Analytics" /\
  determine_project_name (PyStr.path_join BASE_PATH "Projects/SQL_Server/upgrade.sql")
    = "SQL Server Upgrades" /\
  determine_project_name (PyStr.path_join BASE_PATH "Projects/SFMS_Mining/report.pdf")
    = "SFMS Mining Analytics" /\
  (forall cwd,
      get_document_type cwd
        (PyStr.path_join BASE_PATH "Projects/SQL_Server/upgrade.sql") BASE_PATH
      = "Projects" /\
      get_document_type cwd
        (PyStr.path_join BASE_PATH "Projects/SFMS_Mining/report.pdf") BASE_PATH
      = "Projects").
Proof.
  repeat split; try (intros cwd); vm_compute; reflexivity.
Qed.

(** C9. A file whose path relative to the corpus root has a single
    segment gets the document type "root_files": so does every file
    directly under an absolute root; and a path that has no directory and
    matches no keyword list gets the project "General Project". *)
Theorem root_files_and_general_project :
  (forall cwd file_path base_path,
      List.length (PyStr.split PyStr.slash (PyStr.relpath cwd file_path base_path)) = 1 ->
      get_document_type cwd file_path base_path = "root_files") /\
  (forall cwd base_comps filename,
      Forall (fun c => PyStr.regular c = true) (base_comps ++ [filename]) ->
      get_document_type cwd (PyStr.absolute (base_comps ++ [filename]))
                        (PyStr.absolute base_comps)
      = "root_files") /\
  (forall name,
      PyStr.contains "/" name = false ->
      first_rule path_rules (PyStr.lower name) = None ->
      determine_project_name name = "General Project").
Proof.
  split; [|split].
  - intros cwd file_path base_path H. unfold get_document_type. now rewrite H.
  - intros cwd base_comps filename H.
    now rewrite get_document_type_below by (discriminate || assumption).
  - apply bare_name_general_project.
Qed.

Lemma root_files_and_general_project_witness :
  get_document_type "/" (PyStr.path_join BASE_PATH "readme.md") BASE_PATH = "root_files" /\
  get_document_type "/home"
    (PyStr.absolute (["Users"; "johanjgenis"; "Documents"; "Artiligence"] ++ ["readme.md"]))
    (PyStr.absolute ["Users"; "johanjgenis"; "Documents"; "Artiligence"]) = "root_files" /\
  determine_project_name "readme.md" = "General Project".
Proof.
  destruct root_files_and_general_project as (Htype & Hroot & Hproj).
  split; [|split].
  - apply Htype. vm_compute. reflexivity.
  - apply Hroot. repeat constructor.
  - apply Hproj; vm_compute; reflexivity.
Defined.

End ClassifierSpec.

(** ** The chunker *)

Module ChunkerFacts.

Import Chunker.
Local Open Scope nat_scope.

Section MergeFacts.

Context {A : Type}.
Variables (size overlap : nat).

Lemma pop_front_spec len (cur : list (list A)) tot :
  tot = length (concat cur) ->
  exists dropped,
    cur = dropped ++ fst (pop_front size overlap len cur tot) /\
    snd (pop_front size overlap len cur tot) = length (concat (fst (pop_front size overlap len cur tot))) /\
    (fst (pop_front size overlap len cur tot) = [] \/
     (snd (pop_front size overlap len cur tot) <= overlap /\
      (snd (pop_front size overlap len cur tot) + len <= size \/ snd (pop_front size overlap len cur tot) = 0))).
Proof.
  revert tot. induction cur as [|first rest IH]; intros tot Htot.
  - exists []. simpl. auto.
  - cbn [Chunker.pop_front].
    destruct ((overlap <? tot) || ((size <? tot + len) && (0 <? tot))) eqn:E.
    + destruct (IH (tot - length first)) as (dropped & Hd & Ht & Hc).
      { simpl in Htot. rewrite length_app in Htot. lia. }
      exists (first :: dropped). split; [simpl; now f_equal|]. split; assumption.
    + exists []. cbn [fst snd]. split; [reflexivity|]. split; [assumption|].
      right. apply orb_false_elim in E. destruct E as [E1 E2].
      apply Nat.ltb_ge in E1. split; [assumption|].
      apply andb_false_elim in E2. destruct E2 as [E2 | E2].
      * apply Nat.ltb_ge in E2. now left.
      * apply Nat.ltb_ge in E2. right. lia.
Qed.

Lemma stitch_app (l1 l2 : list (nat * list A)) :
  stitch (l1 ++ l2) = stitch l1 ++ stitch l2.
Proof. unfold stitch. now rewrite map_app, concat_app. Qed.

Lemma stitch_emit (ds : list (nat * list A)) o cur :
  stitch (emit ds o cur) = stitch ds ++ skipn o (concat cur).
Proof.
  unfold emit. destruct (concat cur) as [|a l] eqn:E.
  - now rewrite skipn_nil, app_nil_r.
  - rewrite stitch_app. unfold stitch at 2. cbn [map concat].
    now rewrite app_nil_r.
Qed.

Lemma overlaps_ok_any_prev (prev : list A) l : overlaps_ok overlap [] l -> overlaps_ok overlap prev l.
Proof.
  destruct l as [|[o c] l]; [trivial|]. cbn [Chunker.overlaps_ok].
  intros (Ho & Hl & Hf & Hrest). simpl in Hl.
  assert (o = 0) by lia. subst o.
  repeat split; try lia; [|assumption].
  rewrite Nat.sub_0_r, skipn_all. reflexivity.
Qed.

Lemma overlaps_ok_app (prev : list A) l1 l2 :
  overlaps_ok overlap prev l1 -> overlaps_ok overlap [] l2 -> overlaps_ok overlap prev (l1 ++ l2).
Proof.
  revert prev. induction l1 as [|[o c] l1 IH]; intros prev H1 H2.
  - now apply overlaps_ok_any_prev.
  - cbn [app Chunker.overlaps_ok] in *. destruct H1 as (Ho & Hl & Hf & Hrest).
    repeat split; auto.
Qed.

Lemma last_default {B} (x : B) l d d' : last (x :: l) d = last (x :: l) d'.
Proof.
  revert x. induction l as [|y l IH]; intros x; [reflexivity|].
  change (last (y :: l) d = last (y :: l) d'). apply IH.
Qed.

Lemma overlaps_ok_snoc (prev : list A) ds o c :
  overlaps_ok overlap prev ds -> o <= overlap -> link (last (map snd ds) prev) o c ->
  overlaps_ok overlap prev (ds ++ [(o, c)]).
Proof.
  revert prev. induction ds as [|[o' c'] ds IH]; intros prev Hds Ho [Hl Hf].
  - simpl in *. auto.
  - cbn [app Chunker.overlaps_ok] in *. destruct Hds as (Ho' & Hl' & Hf' & Hrest).
    repeat split; auto. apply IH; auto.
    assert (E : last (map snd ((o', c') :: ds)) prev = last (map snd ds) c').
    { destruct ds as [|d ds']; [reflexivity|].
      cbn [map snd]. change (last (c' :: snd d :: map snd ds') prev)
        with (last (snd d :: map snd ds') prev). apply last_default. }
    rewrite E in Hl, Hf. split; assumption.
Qed.

Lemma last_text_snoc (ds : list (nat * list A)) o c :
  last_text (ds ++ [(o, c)]) = c.
Proof. unfold last_text. rewrite map_app. simpl. apply last_last. Qed.

Lemma link_zero (prev c : list A) : link prev 0 c.
Proof. split; [lia|]. rewrite Nat.sub_0_r, skipn_all. reflexivity. Qed.

Lemma link_suffix (dropped kept extra : list A) :
  link (dropped ++ kept) (length kept) (kept ++ extra).
Proof.
  split.
  - rewrite length_app. lia.
  - rewrite firstn_app, Nat.sub_diag, firstn_all, firstn_O, app_nil_r, length_app.
    replace (length dropped + length kept - length kept) with (length dropped) by lia.
    now rewrite skipn_app, skipn_all, Nat.sub_diag.
Qed.

Lemma merge_step_inv (pieces : list (list A)) st d :
  merge_inv overlap pieces st -> merge_inv overlap (pieces ++ [d]) (merge_step size overlap st d).
Proof.
  destruct st as [ds cur tot car].
  intros (Htot & Hst & Hcar & Hov & Hok & Hlink). cbn [docs current_doc total carried] in *.
  unfold Chunker.merge_step. cbn [docs current_doc total carried].
  assert (Hkeep :
    merge_inv overlap (pieces ++ [d]) (mkMerge ds (cur ++ [d]) (tot + length d) car)).
  { unfold Chunker.merge_inv. cbn [docs current_doc total carried].
    rewrite !concat_app. cbn [concat]. rewrite !app_nil_r, !length_app.
    repeat split; try lia.
    - rewrite skipn_app. replace (car - length (concat cur)) with 0 by lia.
      cbn [skipn]. now rewrite app_assoc, Hst.
    - assumption.
    - apply Hlink.
    - rewrite firstn_app. replace (car - length (concat cur)) with 0 by lia.
      rewrite firstn_O, app_nil_r. apply Hlink. }
  destruct (size <? tot + length d); [|exact Hkeep].
  destruct cur as [|c0 cur0]; [exact Hkeep|].
  set (cur := c0 :: cur0) in *.
  destruct (pop_front_spec (length d) cur tot Htot) as (dropped & Hd & Ht & Hc).
  destruct (pop_front size overlap (length d) cur tot) as [cur1 tot1]. cbn [fst snd] in *.
  unfold Chunker.merge_inv. cbn [docs current_doc total carried].
  rewrite !concat_app. cbn [concat]. rewrite !app_nil_r, !length_app.
  assert (Hcat : concat cur = concat dropped ++ concat cur1)
    by (rewrite Hd at 1; apply concat_app).
  split; [lia|].
  split.
  { rewrite stitch_emit, skipn_app, skipn_all, Nat.sub_diag. cbn [skipn app].
    now rewrite Hst. }
  split; [lia|].
  split.
  { destruct Hc as [-> | [Hle _]]; [simpl; lia | lia]. }
  split.
  { unfold emit. destruct (concat cur) as [|a l] eqn:E; [assumption|].
    apply overlaps_ok_snoc; assumption. }
  unfold emit. destruct (concat cur) as [|a l] eqn:E.
  - destruct (concat cur1) as [|b l1] eqn:E1.
    + apply link_zero.
    + destruct (concat dropped); discriminate.
  - rewrite last_text_snoc, Hcat. apply link_suffix.
Qed.

Lemma merge_fold_inv (pieces : list (list A)) :
  merge_inv overlap pieces (fold_left (merge_step size overlap) pieces merge_init).
Proof.
  induction pieces as [|d pieces IH] using rev_ind.
  - unfold Chunker.merge_inv, link. simpl. repeat split; lia.
  - rewrite fold_left_app. simpl. now apply merge_step_inv.
Qed.

Lemma merge_splits_stitch (pieces : list (list A)) : stitch (merge_splits_ov size overlap pieces) = concat pieces.
Proof.
  unfold Chunker.merge_splits_ov.
  destruct (merge_fold_inv pieces) as (_ & Hst & _).
  now rewrite stitch_emit.
Qed.

Lemma merge_splits_overlaps (pieces : list (list A)) : overlaps_ok overlap [] (merge_splits_ov size overlap pieces).
Proof.
  unfold Chunker.merge_splits_ov.
  destruct (merge_fold_inv pieces) as (_ & _ & _ & Hov & Hok & Hlink).
  unfold emit. destruct (concat _); [assumption|].
  apply overlaps_ok_snoc; assumption.
Qed.

Lemma merge_step_sizes st (d : list A) :
  length d <= size -> sizes_inv size st -> sizes_inv size (merge_step size overlap st d).
Proof.
  destruct st as [ds cur tot car].
  intros Hd (Htot & Hle & Hds). cbn [docs current_doc total carried] in *.
  unfold Chunker.merge_step. cbn [docs current_doc total carried].
  destruct (size <? tot + length d) eqn:E.
  - destruct cur as [|c0 cur0].
    + unfold Chunker.sizes_inv. cbn [docs current_doc total carried].
      simpl in Htot. subst tot. simpl. rewrite app_nil_r.
      repeat split; [lia | assumption].
    + set (cur := c0 :: cur0) in *.
      destruct (pop_front_spec (length d) cur tot Htot) as (dropped & _ & Ht & Hc).
      destruct (pop_front size overlap (length d) cur tot) as [cur1 tot1].
      cbn [fst snd] in *.
      unfold Chunker.sizes_inv. cbn [docs current_doc total carried].
      rewrite concat_app, length_app. cbn [concat]. rewrite app_nil_r.
      split; [lia|]. split.
      * destruct Hc as [-> | [_ [H | H]]]; simpl in *; lia.
      * unfold emit. destruct (concat cur) as [|a l] eqn:Ec; [assumption|].
        apply Forall_app. split; [assumption|].
        constructor; [|constructor]. cbn [snd]. lia.
  - apply Nat.ltb_ge in E.
    unfold Chunker.sizes_inv. cbn [docs current_doc total carried].
    rewrite concat_app, length_app. cbn [concat]. rewrite app_nil_r.
    repeat split; [lia | lia | assumption].
Qed.

Lemma merge_fold_sizes (pieces : list (list A)) :
  Forall (fun d => length d <= size) pieces ->
  sizes_inv size (fold_left (merge_step size overlap) pieces merge_init).
Proof.
  induction pieces as [|d pieces IH] using rev_ind; intros H.
  - unfold Chunker.sizes_inv. simpl. repeat split; [lia | constructor].
  - apply Forall_app in H. destruct H as [Hp Hd]. inversion Hd; subst.
    rewrite fold_left_app. simpl. apply merge_step_sizes; auto.
Qed.

Lemma merge_splits_sizes (pieces : list (list A)) :
  Forall (fun d => length d <= size) pieces ->
  Forall (fun c => length (snd c) <= size) (merge_splits_ov size overlap pieces).
Proof.
  intros H. unfold Chunker.merge_splits_ov.
  destruct (merge_fold_sizes pieces H) as (Htot & Hle & Hds).
  unfold emit. destruct (concat _) as [|a l] eqn:E; [assumption|].
  apply Forall_app. split; [assumption|].
  constructor; [|constructor]. cbn [snd]. lia.
Qed.

(** *** The loop over the pieces of one separator *)

Lemma process_splits_stitch deeper good (splits : list (list A)) :
  (forall f s, deeper = Some f -> stitch (f s) = s) ->
  stitch (process_splits size overlap deeper good splits)
  = concat good ++ concat splits.
Proof.
  intros Hdeep. revert good.
  induction splits as [|s rest IH]; intros good; cbn [process_splits].
  - now rewrite merge_splits_stitch, app_nil_r.
  - destruct (length s <=? size).
    + rewrite IH, concat_app. cbn [concat]. now rewrite app_nil_r, <- app_assoc.
    + rewrite !stitch_app, merge_splits_stitch, IH. cbn [concat app].
      f_equal. f_equal.
      destruct deeper as [f|]; [now apply Hdeep|].
      unfold stitch. simpl. now rewrite app_nil_r.
Qed.

Lemma process_splits_overlaps deeper good (splits : list (list A)) :
  (forall f s, deeper = Some f -> overlaps_ok overlap [] (f s)) ->
  overlaps_ok overlap [] (process_splits size overlap deeper good splits).
Proof.
  intros Hdeep. revert good.
  induction splits as [|s rest IH]; intros good; cbn [process_splits].
  - apply merge_splits_overlaps.
  - destruct (length s <=? size); [apply IH|].
    apply overlaps_ok_app; [apply merge_splits_overlaps|].
    apply overlaps_ok_app; [|apply IH].
    destruct deeper as [f|]; [now apply Hdeep|].
    simpl. repeat split; lia.
Qed.

Lemma process_splits_sizes deeper good (splits : list (list A)) :
  (forall f s, deeper = Some f ->
               Forall (fun c => length (snd c) <= size) (f s)) ->
  (deeper = None -> Forall (fun s => length s <= size) splits) ->
  Forall (fun d => length d <= size) good ->
  Forall (fun c => length (snd c) <= size)
         (process_splits size overlap deeper good splits).
Proof.
  intros Hdeep. revert good.
  induction splits as [|s rest IH]; intros good Hnone Hgood; cbn [process_splits].
  - now apply merge_splits_sizes.
  - assert (Hrest : deeper = None -> Forall (fun s => length s <= size) rest).
    { intros E. specialize (Hnone E). now inversion Hnone. }
    destruct (length s <=? size) eqn:E.
    + apply IH; [assumption|]. apply Forall_app. split; [assumption|].
      constructor; [|constructor]. now apply Nat.leb_le in E.
    + apply Forall_app. split; [now apply merge_splits_sizes|].
      apply Forall_app. split; [|apply IH; [assumption | constructor]].
      destruct deeper as [f|]; [now apply Hdeep|].
      specialize (Hnone eq_refl). inversion Hnone; subst.
      constructor; [assumption | constructor].
Qed.

Lemma process_splits_all_good deeper good (splits : list (list A)) :
  Forall (fun s => length s <= size) splits ->
  process_splits size overlap deeper good splits
  = merge_splits_ov size overlap (good ++ splits).
Proof.
  revert good. induction splits as [|s rest IH]; intros good H; cbn [process_splits].
  - now rewrite app_nil_r.
  - inversion H as [|? ? Hs Hrest]; subst.
    apply Nat.leb_le in Hs. rewrite Hs, IH by assumption.
    now rewrite <- app_assoc.
Qed.

End MergeFacts.

(** *** Splitting on a separator loses nothing *)

Lemma is_prefix_app sep t : is_prefix sep t = true -> exists t', t = sep ++ t'.
Proof.
  revert t. induction sep as [|x sep IH]; intros t H.
  - exists t. reflexivity.
  - destruct t as [|y t]; [discriminate|]. cbn [is_prefix] in H.
    apply andb_prop in H. destruct H as [Hxy Ht].
    apply Ascii.eqb_eq in Hxy. subst y.
    destruct (IH t Ht) as (t' & ->). now exists t'.
Qed.

Lemma split_on_skip sep pre cur t :
  split_on sep (length pre) cur (pre ++ t) = split_on sep 0 cur t.
Proof.
  induction pre as [|c pre IH]; [reflexivity|]. cbn [length app split_on]. exact IH.
Qed.

Lemma split_on_nonempty sep skip cur t : split_on sep skip cur t <> [].
Proof.
  revert skip cur. induction t as [|c t IH]; intros skip cur; cbn [split_on].
  - discriminate.
  - destruct skip; [|apply IH].
    destruct (is_prefix sep (c :: t)); [discriminate | apply IH].
Qed.

Lemma concat_map_rejoin sep pieces :
  pieces <> [] -> concat (map (app sep) pieces) = sep ++ rejoin sep pieces.
Proof.
  destruct pieces as [|q0 qs]; [congruence|]. intros _.
  cbn [map concat rejoin]. now rewrite app_assoc.
Qed.

Lemma split_on_rejoin sep n :
  sep <> [] ->
  forall t cur, length t <= n -> rejoin sep (split_on sep 0 cur t) = rev cur ++ t.
Proof.
  intros Hsep. induction n as [|n IH]; intros t cur Hlen.
  - destruct t; [|simpl in Hlen; lia]. simpl. reflexivity.
  - destruct t as [|c t]; [simpl; reflexivity|].
    cbn [split_on]. destruct (is_prefix sep (c :: t)) eqn:E.
    + apply is_prefix_app in E. destruct E as (t' & E).
      destruct sep as [|s0 sep']; [congruence|].
      cbn [app] in E. injection E as -> ->.
      replace (length (s0 :: sep') - 1) with (length sep') by (simpl; lia).
      rewrite split_on_skip.
      cbn [rejoin]. rewrite concat_map_rejoin by apply split_on_nonempty.
      rewrite IH; [reflexivity|].
      cbn [length] in Hlen. rewrite length_app in Hlen. lia.
    + rewrite IH by (cbn [length] in Hlen; lia).
      cbn [rev]. now rewrite <- app_assoc.
Qed.

Lemma concat_filter_nonempty (l : list text) : concat (filter nonempty l) = concat l.
Proof.
  induction l as [|x l IH]; [reflexivity|]. cbn [filter].
  destruct x; cbn [nonempty concat]; [exact IH|]. now rewrite IH.
Qed.

Lemma concat_singletons {A} (t : list A) : concat (map (fun c => [c]) t) = t.
Proof. induction t as [|c t IH]; [reflexivity|]. simpl. now rewrite IH. Qed.

Lemma split_keep_concat sep t : concat (split_keep sep t) = t.
Proof.
  unfold split_keep. destruct sep as [|s0 sep'].
  - apply concat_singletons.
  - pose proof (split_on_rejoin (s0 :: sep') (length t) ltac:(discriminate) t []
                  (Nat.le_refl _)) as H.
    destruct (split_on (s0 :: sep') 0 [] t) as [|p0 ps].
    + simpl in H. now rewrite <- H.
    + rewrite concat_filter_nonempty. exact H.
Qed.

(** *** The recursive splitter *)

Section SplitterFacts.

Variables (size overlap : nat).

Lemma split_text_stitch seps t : stitch (split_text_ov size overlap seps t) = t.
Proof.
  revert t. induction seps as [|sep rest IH]; intros t; cbn [split_text_ov].
  - destruct t; [reflexivity|]. unfold stitch. simpl. now rewrite app_nil_r.
  - assert (Hnone : stitch (process_splits size overlap None [] (split_keep sep t)) = t).
    { rewrite process_splits_stitch by discriminate. apply split_keep_concat. }
    destruct sep as [|s0 sep']; [exact Hnone|].
    destruct (occurs (s0 :: sep') t).
    + rewrite process_splits_stitch; [apply split_keep_concat|].
      intros f s Hf. destruct rest; [discriminate|].
      injection Hf as <-. apply IH.
    + destruct rest; [exact Hnone | apply IH].
Qed.

Lemma split_text_overlaps seps t :
  overlaps_ok overlap [] (split_text_ov size overlap seps t).
Proof.
  revert t. induction seps as [|sep rest IH]; intros t; cbn [split_text_ov].
  - destruct t; simpl; [trivial|]. repeat split; lia.
  - assert (Hnone : overlaps_ok overlap []
                      (process_splits size overlap None [] (split_keep sep t))).
    { apply process_splits_overlaps. discriminate. }
    destruct sep as [|s0 sep']; [exact Hnone|].
    destruct (occurs (s0 :: sep') t).
    + apply process_splits_overlaps.
      intros f s Hf. destruct rest; [discriminate|].
      injection Hf as <-. apply IH.
    + destruct rest; [exact Hnone | apply IH].
Qed.

Lemma split_text_sizes seps t :
  In [] seps -> 1 <= size ->
  Forall (fun c => length (snd c) <= size) (split_text_ov size overlap seps t).
Proof.
  intros Hcut Hsize. revert t.
  induction seps as [|sep rest IH]; intros t; [destruct Hcut|].
  cbn [split_text_ov]. destruct sep as [|s0 sep'].
  - apply process_splits_sizes; [discriminate | | constructor].
    intros _. unfold split_keep. apply Forall_forall. intros s Hs.
    apply in_map_iff in Hs. destruct Hs as (c & <- & _). simpl. lia.
  - destruct Hcut as [Hcut | Hcut]; [discriminate|].
    specialize (IH Hcut).
    destruct rest as [|sep2 rest2]; [destruct Hcut|].
    destruct (occurs (s0 :: sep') t); [|apply IH].
    apply process_splits_sizes; [| discriminate | constructor].
    intros f s Hf. injection Hf as <-. apply IH.
Qed.

End SplitterFacts.

(** *** Merging looks at lengths only *)

Section Relabel.

Context {A B : Type} (f : A -> B).
Variables (size overlap : nat).

Lemma pop_front_relabel len (cur : list (list A)) tot :
  pop_front size overlap len (map (map f) cur) tot
  = (map (map f) (fst (pop_front size overlap len cur tot)),
     snd (pop_front size overlap len cur tot)).
Proof.
  revert tot. induction cur as [|first rest IH]; intros tot; [reflexivity|].
  cbn [map pop_front]. rewrite length_map.
  destruct ((overlap <? tot) || ((size <? tot + len) && (0 <? tot))); [apply IH|].
  reflexivity.
Qed.

Lemma emit_relabel (ds : list (nat * list A)) o cur :
  emit (map (relabel f) ds) o (map (map f) cur) = map (relabel f) (emit ds o cur).
Proof.
  unfold emit. rewrite <- concat_map.
  destruct (concat cur) as [|a l]; [reflexivity|].
  now rewrite map_app.
Qed.

Lemma merge_step_relabel st (d : list A) :
  merge_step size overlap (relabel_state f st) (map f d)
  = relabel_state f (merge_step size overlap st d).
Proof.
  destruct st as [ds cur tot car].
  unfold merge_step, relabel_state. cbn [docs current_doc total carried].
  rewrite length_map.
  destruct (size <? tot + length d).
  - destruct cur as [|c0 cur0]; cbn [map].
    + reflexivity.
    + change (map f c0 :: map (map f) cur0) with (map (map f) (c0 :: cur0)).
      rewrite pop_front_relabel, emit_relabel.
      destruct (pop_front size overlap (length d) (c0 :: cur0) tot) as [cur1 tot1].
      cbn [fst snd docs current_doc total carried].
      rewrite map_app, <- concat_map, length_map. reflexivity.
  - cbn [docs current_doc total carried]. now rewrite map_app.
Qed.

Lemma merge_splits_relabel (pieces : list (list A)) :
  merge_splits_ov size overlap (map (map f) pieces)
  = map (relabel f) (merge_splits_ov size overlap pieces).
Proof.
  unfold merge_splits_ov.
  assert (H : forall st,
             fold_left (merge_step size overlap) (map (map f) pieces)
                       (relabel_state f st)
             = relabel_state f (fold_left (merge_step size overlap) pieces st)).
  { induction pieces as [|d pieces IH]; intros st; [reflexivity|].
    cbn [map fold_left]. now rewrite merge_step_relabel, IH. }
  change (@merge_init B) with (relabel_state f (@merge_init A)).
  rewrite H. unfold relabel_state at 1 2 3. cbn [docs current_doc carried].
  apply emit_relabel.
Qed.

End Relabel.

(** *** A text is its characters at its positions *)

Lemma skipn_cons_nth {A} (d : A) a (t : list A) :
  a < length t -> skipn a t = nth a t d :: skipn (S a) t.
Proof.
  revert a. induction t as [|x t IH]; intros a H; [simpl in H; lia|].
  destruct a as [|a]; [reflexivity|]. cbn [skipn nth]. rewrite IH; [reflexivity|].
  simpl in H. lia.
Qed.

Lemma map_nth_positions {A} (d : A) (t : list A) n a :
  a + n <= length t ->
  map (fun i => nth (N.to_nat i) t d) (positions a n) = firstn n (skipn a t).
Proof.
  unfold positions. revert a. induction n as [|n IH]; intros a H; [reflexivity|].
  cbn [seq map]. rewrite Nat2N.id, (skipn_cons_nth d a t) by lia.
  cbn [firstn]. f_equal. rewrite IH by lia. reflexivity.
Qed.

Lemma singletons_positions {A} (d : A) (t : list A) :
  map (fun c => [c]) t
  = map (map (fun i => nth (N.to_nat i) t d))
        (map (fun i => [i]) (positions 0 (length t))).
Proof.
  rewrite map_map. cbn [map].
  rewrite <- (map_map (fun i => nth (N.to_nat i) t d) (fun c => [c])).
  rewrite map_nth_positions by lia. now rewrite skipn_O, firstn_all.
Qed.

(** The hard cut of three thousand characters, by position. *)
Lemma merge_three_thousand :
  merge_splits_ov CHUNK_SIZE CHUNK_OVERLAP (map (fun i => [i]) (positions 0 3000))
  = [(0, positions 0 1200); (150, positions 1050 1200); (150, positions 2100 900)].
Proof. vm_compute. reflexivity. Qed.

End ChunkerFacts.

Module ChunkerSpec.

Import Chunker ChunkerFacts.
Local Open Scope nat_scope.

(** C3. For every text and every [overlap < size]: each chunk has at most
    [size] characters (the hard cut is the last separator), each chunk
    repeats at most [overlap] characters and these are the last ones of
    the chunk before it, and the chunks in order, each without the
    characters it repeats, give the text back. *)
Theorem chunks_bounded_and_reconstruct :
  forall (t : text) (size overlap : nat),
    overlap < size ->
    let annotated := chunk_ov size overlap t in
    chunk size overlap t = map snd annotated /\
    Forall (fun c => length c <= size) (chunk size overlap t) /\
    overlaps_ok overlap [] annotated /\
    stitch annotated = t.
Proof.
  intros t size overlap Hlt annotated. split; [reflexivity|]. split.
  - unfold chunk. apply Forall_map. apply split_text_sizes; [|lia].
    unfold separators. simpl. tauto.
  - split; [apply split_text_overlaps | apply split_text_stitch].
Qed.

Lemma chunks_bounded_and_reconstruct_witness :
  Forall (fun c => length c <= 10) (chunk 10 3 long_token_text) /\
  stitch (chunk_ov 10 3 long_token_text) = long_token_text.
Proof.
  pose proof (chunks_bounded_and_reconstruct long_token_text 10 3 ltac:(lia))
    as (_ & Hsize & _ & Hst).
  split; assumption.
Defined.

Lemma tail_is_head {A} (t : list A) a n o m :
  o <= n -> a + n <= length t -> o <= m ->
  skipn (length (firstn n (skipn a t)) - o) (firstn n (skipn a t))
  = firstn o (firstn m (skipn (a + n - o) t)).
Proof.
  intros Ho Hn Hm.
  rewrite length_firstn, length_skipn, Nat.min_l by lia.
  rewrite skipn_firstn_comm, skipn_skipn, firstn_firstn, Nat.min_l by lia.
  f_equal; [lia|]. f_equal. lia.
Qed.

Lemma no_separator_hard_cut size overlap (t : text) :
  1 <= size ->
  (forall sep, In sep separators -> sep <> [] -> occurs sep t = false) ->
  chunk_ov size overlap t = merge_splits_ov size overlap (map (fun c => [c]) t).
Proof.
  intros Hsize Hno. unfold chunk_ov, separators.
  cbn [map list_ascii_of_string split_text_ov].
  rewrite !Hno; try discriminate; try (unfold separators; simpl; tauto).
  unfold split_keep. rewrite process_splits_all_good; [reflexivity|].
  apply Forall_forall. intros s Hs.
  apply in_map_iff in Hs. destruct Hs as (c & <- & _). simpl. lia.
Qed.

(** C8, as amended. A document of 3000 characters in which no separator
    occurs, chunked with size 1200 and overlap 150, gives exactly three
    chunks (the characters 0-1199, 1050-2249 and 2100-2999), each of at
    most 1200 characters, and the last 150 characters of a chunk are the
    first 150 of the next. *)
Theorem solid_document_three_chunks :
  forall t : text,
    length t = 3000 ->
    (forall sep, In sep separators -> sep <> [] -> occurs sep t = false) ->
    let chunks := chunk CHUNK_SIZE CHUNK_OVERLAP t in
    chunks = [firstn 1200 t; firstn 1200 (skipn 1050 t); skipn 2100 t] /\
    length chunks = 3 /\
    Forall (fun c => length c <= 1200) chunks /\
    (forall i c c',
        nth_error chunks i = Some c -> nth_error chunks (S i) = Some c' ->
        skipn (length c - 150) c = firstn 150 c').
Proof.
  intros t Hlen Hno chunks.
  assert (Hchunks : chunks = [firstn 1200 (skipn 0 t); firstn 1200 (skipn 1050 t);
                              firstn 900 (skipn 2100 t)]).
  { unfold chunks, chunk.
    rewrite no_separator_hard_cut by (assumption || (unfold CHUNK_SIZE; lia)).
    rewrite (singletons_positions "a"%char t), Hlen, merge_splits_relabel.
    rewrite merge_three_thousand. cbn [map relabel fst snd].
    rewrite !map_nth_positions by (rewrite Hlen; lia). reflexivity. }
  assert (H3 : firstn 900 (skipn 2100 t) = skipn 2100 t).
  { apply firstn_all2. rewrite length_skipn, Hlen. lia. }
  split; [rewrite Hchunks, H3; reflexivity|].
  split; [rewrite Hchunks; reflexivity|].
  split.
  - rewrite Hchunks.
    constructor; [|constructor; [|constructor; [|constructor]]];
      rewrite length_firstn, length_skipn, Hlen; lia.
  - intros i c c' Hc Hc'. rewrite Hchunks in Hc, Hc'.
    pose proof (tail_is_head t 0 1200 150 1200) as H12.
    pose proof (tail_is_head t 1050 1200 150 900) as H23.
    replace (0 + 1200 - 150) with 1050 in H12 by lia.
    replace (1050 + 1200 - 150) with 2100 in H23 by lia.
    remember (firstn 1200 (skipn 0 t)) as c1.
    remember (firstn 1200 (skipn 1050 t)) as c2.
    remember (firstn 900 (skipn 2100 t)) as c3.
    destruct i as [|[|i]]; cbn [nth_error] in Hc, Hc'.
    + assert (c = c1) by congruence. assert (c' = c2) by congruence.
      subst c c'. apply H12; lia.
    + assert (c = c2) by congruence. assert (c' = c3) by congruence.
      subst c c'. apply H23; lia.
    + destruct i; discriminate.
Qed.

Lemma solid_document_three_chunks_witness :
  length (chunk CHUNK_SIZE CHUNK_OVERLAP solid_document) = 3 /\
  chunk CHUNK_SIZE CHUNK_OVERLAP solid_document
  = [firstn 1200 solid_document; firstn 1200 (skipn 1050 solid_document);
     skipn 2100 solid_document].
Proof.
  assert (Hlen : length solid_document = 3000) by (vm_compute; reflexivity).
  assert (Hno : forall sep, In sep separators -> sep <> [] ->
                            occurs sep solid_document = false).
  { intros sep Hin Hne. unfold separators in Hin. simpl in Hin.
    destruct Hin as [<- | [<- | [<- | [<- | []]]]];
      try (vm_compute; reflexivity). congruence. }
  pose proof (solid_document_three_chunks solid_document Hlen Hno)
    as (Hchunks & Hthree & _).
  split; assumption.
Defined.

(** C8 as stated fails: four words of 749 letters, a space after each,
    are a document of 3000 characters, and it is cut into four chunks,
    none of which repeats anything. *)
Lemma four_words_four_chunks :
  length four_words = 3000 /\
  length (chunk CHUNK_SIZE CHUNK_OVERLAP four_words) = 4 /\
  length (chunk CHUNK_SIZE CHUNK_OVERLAP four_words) <> 3 /\
  map fst (chunk_ov CHUNK_SIZE CHUNK_OVERLAP four_words) = [0; 0; 0; 0].
Proof.
  assert (H : map (fun c => (fst c, length (snd c)))
                  (chunk_ov CHUNK_SIZE CHUNK_OVERLAP four_words)
              = [(0, 749); (0, 750); (0, 750); (0, 751)])
    by (vm_compute; reflexivity).
  split; [vm_compute; reflexivity|].
  assert (H4 : length (chunk CHUNK_SIZE CHUNK_OVERLAP four_words) = 4).
  { unfold chunk. rewrite length_map.
    apply (f_equal (@length _)) in H. rewrite length_map in H. exact H. }
  split; [exact H4|]. split; [rewrite H4; discriminate|].
  apply (f_equal (map fst)) in H. rewrite map_map in H. exact H.
Qed.

End ChunkerSpec.

(** ** The corpus builder *)

Module CorpusSpec.

Import Classifier Corpus.
Local Open Scope nat_scope.

(** The size check of [load_documents_recursive] skips every file that
    is too large, whatever its document type, and counts it. *)
Lemma load_file_too_large cwd base_path max_file_size st file_path data :
  max_file_size < file_size data ->
  load_file cwd base_path max_file_size st (file_path, data)
  = mkLoad (documents st) (loaded_count st) (S (skipped_large st)) (skipped_errors st).
Proof.
  intros H. unfold load_file. apply Nat.ltb_lt in H. now rewrite H.
Qed.

(** The filter of [load_all_documents] keeps every document of type
    "Projects", whatever its length. *)
Lemma keeps_projects max_file_size doc :
  meta_get "doc_type" (metadata doc) = Some "Projects" ->
  keeps max_file_size doc = true.
Proof. intros H. unfold keeps. now rewrite H. Qed.

(** C5 on the code. [Projects/Plant/notes.md], one byte over the limit of
    100000, has the document type "Projects"; [load_documents_recursive]
    skips it as too large and counts it, [load_enhanced_project_documents]
    has no branch for its extension, and the build retains nothing of
    it.  A PDF of the same size at the same place is skipped and counted
    by the first pass as well, and retained through the second. *)
Theorem large_project_file_dropped :
  get_document_type "/" "/corpus/Projects/Plant/notes.md" "/corpus" = "Projects" /\
  map fst (find_all_files_recursive "/corpus" large_project_notes)
  = ["/corpus/Projects/Plant/notes.md"] /\
  skipped_large (load_state_recursive "/" "/corpus" MAX_FILE_SIZE large_project_notes) = 1 /\
  load_enhanced_project_documents "/corpus" large_project_notes = [] /\
  (forall rng random_seed random_sample state,
      fst (load_all_documents "/" "/corpus" MAX_FILE_SIZE rng random_seed random_sample
             state large_project_notes) = []) /\
  skipped_large (load_state_recursive "/" "/corpus" MAX_FILE_SIZE large_project_pdf) = 1 /\
  (forall rng random_seed random_sample state,
      map source_path
          (fst (load_all_documents "/" "/corpus" MAX_FILE_SIZE rng random_seed random_sample
                  state large_project_pdf))
      = ["/corpus/Projects/Plant/report.pdf"]).
Proof.
  repeat split; try (intros rng random_seed random_sample state);
    vm_compute; reflexivity.
Qed.

Lemma rotate_sample_length state population k :
  k <= length population -> length (fst (rotate_sample state population k)) = k.
Proof.
  intros H. unfold rotate_sample. cbn [fst].
  rewrite length_firstn, length_app, length_skipn, length_firstn. lia.
Qed.

Lemma rotate_sample_incl state population k :
  incl (fst (rotate_sample state population k)) population.
Proof.
  unfold rotate_sample. cbn [fst]. intros d Hd.
  apply ListFacts.In_firstn, in_app_or in Hd. destruct Hd as [Hd | Hd].
  - rewrite <- (firstn_skipn (state mod length population) population).
    apply in_or_app. now right.
  - eapply ListFacts.In_firstn; eassumption.
Qed.

(** *** Discovery leaves the hidden names out *)

Lemma node_induction (P : node -> Prop) :
  (forall name data, P (File name data)) ->
  (forall name children, Forall P children -> P (Dir name children)) ->
  forall n, P n.
Proof.
  intros HF HD. fix IH 1. intros [name data | name children].
  - apply HF.
  - apply HD. induction children as [|c children IHc]; constructor.
    + apply IH.
    + exact IHc.
Qed.

Lemma files_here_visible root children p d :
  In (p, d) (files_here root children) ->
  exists name, hidden name = false /\ p = PyStr.path_join root name.
Proof.
  unfold files_here. intros H. apply in_flat_map in H.
  destruct H as ([name data | name sub] & _ & H); [|destruct H].
  destruct (hidden name) eqn:Eh; cbn [negb andb] in H; [destruct H|].
  destruct (mem _ _); [|destruct H].
  destruct H as [H | []]. injection H as <- _. eauto.
Qed.

Lemma glob_here_visible root children p d :
  In (p, d) (glob_here root children) ->
  exists name, hidden name = false /\ p = PyStr.path_join root name.
Proof.
  unfold glob_here. intros H. apply in_flat_map in H.
  destruct H as ([name data | name sub] & _ & H); [|destruct H].
  destruct (hidden name) eqn:Eh; [destruct H|].
  destruct H as [H | []]. injection H as <- _. eauto.
Qed.

Lemma visible_below_step root d p :
  hidden d = false -> visible_below (PyStr.path_join root d) p -> visible_below root p.
Proof.
  intros Hd (names & Hne & Hvis & ->). exists (d :: names).
  split; [discriminate|]. split; [now constructor | reflexivity].
Qed.

Lemma visible_below_two root d name :
  hidden d = false -> hidden name = false ->
  visible_below root (PyStr.path_join (PyStr.path_join root d) name).
Proof.
  intros Hd Hn. exists [d; name]. split; [discriminate|].
  split; [repeat constructor; assumption | reflexivity].
Qed.

Lemma walk_files_visible n :
  forall root p d, In (p, d) (walk_files root n) -> visible_below root p.
Proof.
  induction n as [name data | name children IH] using node_induction;
    intros root p d H; cbn [walk_files] in H; [destruct H|].
  destruct (hidden name) eqn:Eh; [destruct H|].
  apply in_app_or in H. destruct H as [H | H].
  - apply files_here_visible in H. destruct H as (f & Hf & ->).
    now apply visible_below_two.
  - apply in_flat_map in H. destruct H as (c & Hc & H).
    rewrite Forall_forall in IH.
    apply (visible_below_step root name); [assumption|]. eapply IH; eassumption.
Qed.

Lemma glob_below_visible n :
  forall root p d, In (p, d) (glob_below root n) -> visible_below root p.
Proof.
  induction n as [name data | name children IH] using node_induction;
    intros root p d H; cbn [glob_below] in H; [destruct H|].
  destruct (hidden name) eqn:Eh; [destruct H|].
  apply in_app_or in H. destruct H as [H | H].
  - apply glob_here_visible in H. destruct H as (f & Hf & ->).
    now apply visible_below_two.
  - apply in_flat_map in H. destruct H as (c & Hc & H).
    rewrite Forall_forall in IH.
    apply (visible_below_step root name); [assumption|]. eapply IH; eassumption.
Qed.

Lemma find_all_files_visible base_path tree p d :
  In (p, d) (find_all_files_recursive base_path tree) -> visible_below base_path p.
Proof.
  unfold find_all_files_recursive. intros H. apply in_app_or in H.
  destruct H as [H | H].
  - apply files_here_visible in H. destruct H as (f & Hf & ->).
    exists [f]. split; [discriminate|]. split; [now constructor | reflexivity].
  - apply in_flat_map in H. destruct H as (c & _ & H).
    eapply walk_files_visible; eassumption.
Qed.

Lemma project_files_visible base_path tree p d :
  In (p, d) (project_files base_path tree) -> visible_below base_path p.
Proof.
  unfold project_files. intros H. apply in_flat_map in H.
  destruct H as ([name data | name sub] & _ & H); [destruct H|].
  destruct (String.eqb_spec name "Projects") as [-> | _]; [|destruct H].
  apply in_app_or in H. destruct H as [H | H].
  - apply glob_here_visible in H. destruct H as (f & Hf & ->).
    now apply visible_below_two.
  - apply in_flat_map in H. destruct H as (c & _ & H).
    apply (visible_below_step base_path "Projects"); [reflexivity|].
    eapply glob_below_visible; eassumption.
Qed.

Lemma path_join_nonempty a b : a <> EmptyString -> PyStr.path_join a b <> EmptyString.
Proof.
  intros Ha. unfold PyStr.path_join.
  destruct (PyStr.startswith "/" b) eqn:Eb.
  - destruct b; [discriminate Eb | discriminate].
  - destruct (String.eqb_spec a EmptyString) as [-> | _]; [congruence|].
    destruct a as [|c a]; [congruence|].
    destruct (String.eqb _ "/"); discriminate.
Qed.

Lemma visible_below_nonempty base p :
  base <> EmptyString -> visible_below base p -> p <> EmptyString.
Proof.
  intros Hb (names & _ & _ & ->). revert base Hb.
  induction names as [|name names IH]; intros base Hb; [exact Hb|].
  cbn [fold_left]. apply IH. now apply path_join_nonempty.
Qed.

(** *** Every passage carries the path of its file *)

Lemma source_add_metadata p content doc_type file_type subdirectory :
  source_path (add_metadata (loaded p content) doc_type file_type subdirectory) = p.
Proof.
  unfold add_metadata, source_path, loaded. cbn [metadata page_content].
  destruct (PyStr.nonempty file_type), (PyStr.nonempty subdirectory); reflexivity.
Qed.

Lemma source_add_enhanced_metadata p content doc_type file_type project_name :
  source_path (add_enhanced_metadata (loaded p content) doc_type file_type project_name) = p.
Proof. reflexivity. Qed.

Lemma In_add_documents st docs n doc :
  In doc (documents (add_documents st docs n)) -> In doc (documents st) \/ In doc docs.
Proof. unfold add_documents. cbn [documents]. apply in_app_or. Qed.

Lemma load_file_sources cwd base_path max_file_size st p data doc :
  In doc (documents (load_file cwd base_path max_file_size st (p, data))) ->
  In doc (documents st) \/ source_path doc = p.
Proof.
  unfold load_file.
  repeat match goal with
         | |- context [if ?c then _ else _] => destruct c
         | |- context [match extracted data with _ => _ end] =>
             destruct (extracted data) as [[|? ?]|]
         end;
    cbn [documents skip_error]; auto; intros H;
    apply In_add_documents in H; (destruct H as [H | H]; [now left | right]);
    try (destruct H as [<- | []]; apply source_add_metadata);
    try (apply in_map_iff in H; destruct H as (c & <- & _); apply source_add_metadata).
Qed.

Lemma load_documents_recursive_sources cwd base_path max_file_size tree doc :
  In doc (load_documents_recursive cwd base_path max_file_size tree) ->
  exists d, In (source_path doc, d) (find_all_files_recursive base_path tree).
Proof.
  unfold load_documents_recursive, load_state_recursive.
  assert (H : forall files st,
             In doc (documents (fold_left (load_file cwd base_path max_file_size) files st)) ->
             In doc (documents st) \/ exists d, In (source_path doc, d) files).
  { induction files as [|[p data] files IH]; intros st Hin; [now left|].
    cbn [fold_left] in Hin. apply IH in Hin. destruct Hin as [Hin | (d & Hd)].
    - apply load_file_sources in Hin. destruct Hin as [Hin | <-]; [now left|].
      right. exists data. now left.
    - right. exists d. now right. }
  intros Hin. apply H in Hin. destruct Hin as [[] | Hin]. exact Hin.
Qed.

Lemma load_project_file_sources p data doc :
  In doc (load_project_file (p, data)) -> source_path doc = p.
Proof.
  unfold load_project_file.
  repeat match goal with
         | |- context [if ?c then _ else _] => destruct c
         | |- context [match extracted data with _ => _ end] =>
             destruct (extracted data) as [[|? ?]|]
         end;
    intros H; try (destruct H as [<- | []]; reflexivity); try (now destruct H);
    try (apply in_map_iff in H; destruct H as (c & <- & _); reflexivity).
Qed.

Lemma chunk_documents_sources docs c :
  In c (chunk_documents docs) ->
  exists doc, In doc docs /\ source_path c = source_path doc.
Proof.
  unfold chunk_documents. intros H. apply in_flat_map in H.
  destruct H as (doc & Hdoc & H). apply in_map_iff in H.
  destruct H as (t & <- & _). exists doc. split; [assumption | reflexivity].
Qed.

(** Every chunk of the build, before and after the safety check, comes
    from a file below the corpus root along names that are not hidden, and
    its source path is not empty. *)
Lemma all_chunks_visible cwd base_path max_file_size tree c :
  In c (all_chunks cwd base_path max_file_size tree) ->
  visible_below base_path (source_path c).
Proof.
  unfold all_chunks. intros H. apply chunk_documents_sources in H.
  destruct H as (doc & Hdoc & ->). apply filter_In in Hdoc. destruct Hdoc as [Hdoc _].
  apply in_app_or in Hdoc. destruct Hdoc as [Hdoc | Hdoc].
  - apply load_documents_recursive_sources in Hdoc. destruct Hdoc as (d & Hd).
    eapply find_all_files_visible; eassumption.
  - unfold load_enhanced_project_documents in Hdoc. apply in_flat_map in Hdoc.
    destruct Hdoc as ([p data] & Hfile & Hdoc).
    apply load_project_file_sources in Hdoc. rewrite Hdoc.
    eapply project_files_visible; eassumption.
Qed.

Lemma emitted_passages_visible
      cwd base_path max_file_size rng random_seed random_sample state tree :
  base_path <> EmptyString ->
  (forall s population k, incl (fst (random_sample s population k)) population) ->
  forall c,
    In c (fst (load_all_documents cwd base_path max_file_size rng random_seed
                 random_sample state tree)) ->
    source_path c <> EmptyString /\ visible_below base_path (source_path c).
Proof.
  intros Hbase Hincl c Hc.
  assert (Hin : In c (all_chunks cwd base_path max_file_size tree)).
  { unfold load_all_documents, cap_chunks in Hc.
    destruct (5000 <? _); [eapply Hincl; eassumption | exact Hc]. }
  apply all_chunks_visible in Hin. split; [|assumption].
  eapply visible_below_nonempty; eassumption.
Qed.

(** C6. A sampler that returns [k] elements of its population, whatever
    its state: when there are more than 5000 chunks, the build keeps
    exactly 5000 of them, each one a chunk of the list, and two builds
    that start from any two states of the random generator keep the same
    chunks, because the generator is seeded with 42 just before. *)
Theorem capped_sample_is_deterministic :
  forall (rng : Type) (random_seed : nat -> rng)
         (random_sample : rng -> list Document -> nat -> list Document * rng),
    (forall s population k,
        k <= length population -> length (fst (random_sample s population k)) = k) ->
    (forall s population k, incl (fst (random_sample s population k)) population) ->
    forall (chunks : list Document) (state1 state2 : rng),
      5000 < length chunks ->
      let run1 := fst (cap_chunks rng random_seed random_sample state1 chunks) in
      let run2 := fst (cap_chunks rng random_seed random_sample state2 chunks) in
      length run1 = 5000 /\ incl run1 chunks /\ run1 = run2 /\
      forall cwd base_path max_file_size tree,
        fst (load_all_documents cwd base_path max_file_size rng random_seed
               random_sample state1 tree)
        = fst (load_all_documents cwd base_path max_file_size rng random_seed
                 random_sample state2 tree).
Proof.
  intros rng random_seed random_sample Hlen Hincl chunks state1 state2 Hmany run1 run2.
  assert (Hrun : forall state,
             fst (cap_chunks rng random_seed random_sample state chunks)
             = fst (random_sample (random_seed 42) chunks 5000)).
  { intros state. unfold cap_chunks. apply Nat.ltb_lt in Hmany. now rewrite Hmany. }
  unfold run1, run2. rewrite !Hrun.
  split; [apply Hlen; lia|]. split; [apply Hincl|]. split; [reflexivity|].
  intros cwd base_path max_file_size tree. unfold load_all_documents, cap_chunks.
  destruct (5000 <? length (all_chunks cwd base_path max_file_size tree)); reflexivity.
Qed.

Lemma capped_sample_is_deterministic_witness :
  let run state := fst (cap_chunks nat (fun n => n) rotate_sample state many_chunks) in
  5000 < length many_chunks /\
  length (run 0) = 5000 /\ incl (run 0) many_chunks /\ run 0 = run 7.
Proof.
  intros run.
  assert (Hmany : 5000 < length many_chunks).
  { apply Nat.ltb_lt. vm_compute. reflexivity. }
  pose proof (capped_sample_is_deterministic nat (fun n => n) rotate_sample
                rotate_sample_length rotate_sample_incl many_chunks 0 7 Hmany)
    as (Hlen & Hincl & Heq & _).
  repeat split; assumption.
Defined.

(** C7 on the code. [webapp/node_modules/left-pad/README.md] is found by
    [find_all_files_recursive] and a passage of it is emitted, while
    [find_all_directories] prunes [node_modules]; the hidden directory
    and the hidden file of the same tree are left out, and every emitted
    passage has a source path. *)
Theorem node_modules_file_emitted :
  map fst (find_all_files_recursive "/corpus" tooling_tree)
  = ["/corpus/webapp/index.js"; "/corpus/webapp/node_modules/left-pad/README.md"] /\
  find_all_directories "/corpus" tooling_tree = ["/corpus/webapp"] /\
  (forall rng random_seed random_sample state,
      map (fun doc => (source_path doc, page_content doc))
          (fst (load_all_documents "/" "/corpus" MAX_FILE_SIZE rng random_seed random_sample
                  state tooling_tree))
      = [("/corpus/webapp/index.js", "code");
         ("/corpus/webapp/node_modules/left-pad/README.md", "left-pad")]).
Proof.
  repeat split; try (intros rng random_seed random_sample state);
    vm_compute; reflexivity.
Qed.

End CorpusSpec.


(** ** More on the diversity retriever *)

Module RetrieverMore.

Import Retriever RetrieverFacts GroupOrder.

Lemma filter_filter_comm {A} (f g : A -> bool) l :
  filter f (filter g l) = filter (fun x => f x && g x) l.
Proof.
  induction l as [|x l IH]; [reflexivity|]. cbn [filter].
  destruct (g x); cbn [filter]; destruct (f x); cbn [andb]; now rewrite IH.
Qed.

Lemma filter_flat_map {A B} (f : B -> bool) (F : A -> list B) l :
  filter f (flat_map F l) = flat_map (fun x => filter f (F x)) l.
Proof.
  induction l as [|x l IH]; [reflexivity|].
  cbn [flat_map]. now rewrite filter_app, IH.
Qed.

Lemma filter_firstn_prefix {A} (f : A -> bool) n l :
  filter f l = filter f (firstn n l) ++ filter f (skipn n l).
Proof. now rewrite <- filter_app, firstn_skipn. Qed.

Lemma filter_all {A} (f : A -> bool) l :
  Forall (fun x => f x = true) l -> filter f l = l.
Proof. induction 1 as [|x l Hx _ IH]; simpl; [reflexivity|]. now rewrite Hx, IH. Qed.

Lemma flat_map_nil {A B} (F : A -> list B) l :
  (forall x, In x l -> F x = []) -> flat_map F l = [].
Proof.
  induction l as [|x l IH]; intros H; [reflexivity|].
  cbn [flat_map]. rewrite (H x (or_introl eq_refl)), IH; [reflexivity|].
  intros y Hy. apply H. now right.
Qed.

(** The documents of one project in the grouped selection: the first four
    candidates of the project. *)
Lemma grouped_selection_of_project cands p :
  is_project_label p = true ->
  filter (has_project p) (grouped_selection cands)
  = firstn 4 (filter (has_project p) cands).
Proof.
  intros Hp. unfold grouped_selection.
  pose proof (group_candidates_grouped_as cands) as (Hnd & _ & Hkeys & _).
  set (ks := keys (fst (group_candidates cands))) in *.
  assert (Hsame : filter (in_group p) cands = filter (has_project p) cands).
  { apply filter_ext. intros d. now apply in_group_label. }
  assert (Hother : forall k, k <> p ->
            filter (has_project p) (firstn 4 (filter (in_group k) cands)) = []).
  { intros k Hk. apply filter_none. apply Forall_forall. intros d Hd.
    eapply has_project_none_in_group; eassumption. }
  assert (Hown : filter (has_project p) (firstn 4 (filter (in_group p) cands))
                 = firstn 4 (filter (has_project p) cands)).
  { rewrite Hsame. apply filter_all. apply ListFacts.Forall_firstn.
    apply Forall_forall. intros d Hd. now apply filter_In in Hd. }
  rewrite filter_flat_map.
  destruct (in_dec string_dec p ks) as [Hin | Hout].
  - clear Hkeys. induction ks as [|k ks IH]; [destruct Hin|].
    inversion Hnd as [|? ? Hnot Hnd']; subst. cbn [flat_map].
    destruct (string_dec k p) as [-> | Hne].
    + rewrite Hown, flat_map_nil, app_nil_r; [reflexivity|].
      intros k' Hk'. apply Hother. intros E. subst k'. contradiction.
    + rewrite Hother by assumption. apply IH; [assumption|].
      destruct Hin as [Hin | Hin]; [congruence | assumption].
  - rewrite flat_map_nil.
    + assert (E : filter (in_group p) cands = []).
      { destruct (filter (in_group p) cands) eqn:E; [reflexivity|].
        exfalso. apply Hout, Hkeys. rewrite E. discriminate. }
      now rewrite <- Hsame, E.
    + intros k' Hk'. apply Hother. intros E. subst k'. contradiction.
Qed.

Lemma select_diverse_incl cands : incl (select_diverse cands) cands.
Proof.
  rewrite select_diverse_parts. intros d Hd.
  apply ListFacts.In_firstn, in_app_or in Hd. destruct Hd as [Hd | Hd].
  - unfold grouped_selection in Hd. apply in_flat_map in Hd.
    destruct Hd as (k & _ & Hd).
    apply ListFacts.In_firstn, filter_In in Hd. tauto.
  - unfold other_selection in Hd.
    apply ListFacts.In_firstn, filter_In in Hd. tauto.
Qed.

(** X1: no fabrication and similarity order.  Whatever the index returns
    in broad mode, every returned document is one of the candidates, and
    the returned documents of a project are, in the order of the
    candidates, the first of the best four candidates of that project. *)
Theorem broad_mode_keeps_the_best_of_each_project :
  forall (similarity_search : string -> nat -> list Document)
         (base_k : nat) (query : string) (p : string),
    let candidates := similarity_search query base_k in
    let result := _get_diverse_project_documents similarity_search base_k query in
    incl result candidates /\
    (is_project_label p = true ->
     exists rest,
       firstn 4 (filter (has_project p) candidates)
       = filter (has_project p) result ++ rest).
Proof.
  intros ss base_k query p candidates result. split.
  - apply select_diverse_incl.
  - intros Hp. unfold result, _get_diverse_project_documents. fold candidates.
    rewrite select_diverse_parts.
    exists (filter (has_project p)
              (skipn 25 (grouped_selection candidates ++ other_selection candidates))).
    rewrite <- filter_firstn_prefix, filter_app.
    rewrite grouped_selection_of_project by assumption.
    pose proof (count_project_others p candidates Hp) as H0.
    unfold count_project in H0. apply length_zero_iff_nil in H0.
    now rewrite H0, app_nil_r.
Qed.

Lemma broad_mode_keeps_the_best_of_each_project_witness :
  exists rest,
    firstn 4 (filter (has_project "Alpha") thirty_candidates)
    = filter (has_project "Alpha")
        (_get_diverse_project_documents (fun _ _ => thirty_candidates)
           default_base_k "all projects") ++ rest.
Proof.
  apply (broad_mode_keeps_the_best_of_each_project
           (fun _ _ => thirty_candidates) default_base_k "all projects" "Alpha").
  reflexivity.
Defined.

Lemma NoDup_firstn {A} n (l : list A) : NoDup l -> NoDup (firstn n l).
Proof.
  intros H. rewrite <- (firstn_skipn n l) in H. eapply NoDup_app_remove_r; eassumption.
Qed.

Lemma grouped_selection_NoDup cands : NoDup cands -> NoDup (grouped_selection cands).
Proof.
  intros Hc. unfold grouped_selection.
  pose proof (group_candidates_grouped_as cands) as (Hnd & _).
  induction Hnd as [|k ks Hnot Hnd IH]; [constructor|].
  cbn [flat_map]. apply NoDup_app.
  - now apply NoDup_firstn, NoDup_filter.
  - exact IH.
  - intros d Hd Hd'. apply in_flat_map in Hd'. destruct Hd' as (k' & Hk' & Hd').
    apply ListFacts.In_firstn, filter_In in Hd. destruct Hd as [_ Hd].
    apply ListFacts.In_firstn, filter_In in Hd'. destruct Hd' as [_ Hd'].
    apply in_group_has_project in Hd, Hd'.
    assert (k = k') by (eapply has_project_unique; eassumption).
    subst. contradiction.
Qed.

(** X2: no duplicates.  When the index returns no document twice, neither
    does the retriever in broad mode. *)
Theorem broad_mode_returns_no_document_twice :
  forall (similarity_search : string -> nat -> list Document)
         (base_k : nat) (query : string),
    NoDup (similarity_search query base_k) ->
    NoDup (_get_diverse_project_documents similarity_search base_k query).
Proof.
  intros ss base_k query Hnd. unfold _get_diverse_project_documents.
  rewrite select_diverse_parts. apply NoDup_firstn. apply NoDup_app.
  - now apply grouped_selection_NoDup.
  - unfold other_selection. now apply NoDup_firstn, NoDup_filter.
  - intros d Hd Hd'.
    pose proof (grouped_selection_grouped (ss query base_k)) as Hg.
    pose proof (other_selection_ungrouped (ss query base_k)) as Ho.
    rewrite Forall_forall in Hg, Ho.
    specialize (Hg d Hd). specialize (Ho d Hd'). congruence.
Qed.

Lemma broad_mode_returns_no_document_twice_witness :
  NoDup (_get_diverse_project_documents (fun _ _ => distinct_candidates)
           default_base_k "all projects").
Proof.
  apply (broad_mode_returns_no_document_twice (fun _ _ => distinct_candidates)
           default_base_k "all projects").
  unfold distinct_candidates.
  repeat (constructor; [simpl; intuition discriminate|]). constructor.
Defined.

Lemma keys_group_add_eq g p d :
  keys (group_add g p d) = if notin (keys g) p then keys g ++ [p] else keys g.
Proof.
  unfold notin. induction g as [|[k ds] g IH]; [reflexivity|].
  cbn [group_add keys map fst existsb]. rewrite (String.eqb_sym p k).
  destruct (String.eqb k p); [reflexivity|].
  cbn [orb map fst app]. fold (keys (group_add g p d)). rewrite IH. fold (keys g).
  destruct (existsb (String.eqb p) (keys g)); reflexivity.
Qed.

Lemma grouped_labels_cons d cands :
  grouped_labels (d :: cands)
  = match project_of d with
    | Some p => if is_project_label p then p :: grouped_labels cands
                else grouped_labels cands
    | None => grouped_labels cands
    end.
Proof.
  unfold grouped_labels. cbn [flat_map].
  destruct (project_of d) as [p|]; [|reflexivity].
  destruct (is_project_label p); reflexivity.
Qed.

Lemma keys_fold_first_seen cands :
  forall g o,
    keys (fst (fold_left group_step cands (g, o)))
    = keys g ++ filter (notin (keys g)) (first_seen (grouped_labels cands)).
Proof.
  induction cands as [|d cands IH]; intros g o.
  - cbn. now rewrite app_nil_r.
  - cbn [fold_left]. rewrite grouped_labels_cons. unfold group_step.
    destruct (project_of d) as [p|]; [|apply IH].
    destruct (is_project_label p); [|apply IH].
    rewrite IH, keys_group_add_eq. cbn [first_seen filter].
    rewrite filter_filter_comm.
    destruct (notin (keys g) p) eqn:E.
    + rewrite <- app_assoc. cbn [app]. do 2 f_equal.
      apply filter_ext. intros q. unfold notin. rewrite existsb_app. cbn [existsb].
      rewrite orb_false_r, negb_orb. reflexivity.
    + f_equal. apply filter_ext. intros q.
      destruct (String.eqb_spec q p) as [-> | Hne]; cbn [negb].
      * rewrite E. reflexivity.
      * symmetry. apply andb_true_r.
Qed.

(** X3: the order of the groups.  The groups are in the order in which
    their projects first appear among the candidates, and the result of
    broad mode is, cut to 25: for each project in that order its first
    four candidates, then the first five candidates without a project. *)
Theorem broad_mode_in_closed_form :
  forall (similarity_search : string -> nat -> list Document)
         (base_k : nat) (query : string),
    let candidates := similarity_search query base_k in
    keys (fst (group_candidates candidates)) = first_seen (grouped_labels candidates) /\
    _get_diverse_project_documents similarity_search base_k query
    = firstn 25
        (flat_map (fun p => firstn 4 (filter (has_project p) candidates))
                  (first_seen (grouped_labels candidates))
         ++ firstn 5 (filter ungrouped candidates)).
Proof.
  intros ss base_k query candidates.
  assert (Hkeys : keys (fst (group_candidates candidates))
                  = first_seen (grouped_labels candidates)).
  { unfold group_candidates. rewrite keys_fold_first_seen. cbn [keys map app].
    apply filter_all. apply Forall_forall. reflexivity. }
  split; [exact Hkeys|].
  unfold _get_diverse_project_documents. fold candidates.
  rewrite select_diverse_parts. unfold grouped_selection, other_selection.
  do 2 f_equal. rewrite <- Hkeys.
  rewrite !flat_map_concat_map. f_equal. apply map_ext_in.
  intros k Hk. f_equal. apply filter_ext. intros d.
  apply in_group_label. now apply keys_are_labels in Hk.
Qed.

(** *** The phrases that select the mode *)

Lemma contains_unfold n h :
  PyStr.contains n h
  = if String.prefix n h then true
    else match h with
         | EmptyString => false
         | String _ h' => PyStr.contains n h'
         end.
Proof. destruct h; reflexivity. Qed.

Lemma string_app_assoc (a b c : string) :
  ((a ++ b) ++ c)%string = (a ++ (b ++ c))%string.
Proof. induction a as [|x a IH]; simpl; [reflexivity | now rewrite IH]. Qed.

Lemma prefix_intro n post : String.prefix n (n ++ post) = true.
Proof.
  induction n as [|a n IH]; [destruct post; reflexivity|].
  cbn [String.append String.prefix].
  destruct (ascii_dec a a); [exact IH | congruence].
Qed.

Lemma prefix_inv n h : String.prefix n h = true -> exists post, h = (n ++ post)%string.
Proof.
  revert h. induction n as [|a n IH]; intros h H; [now exists h|].
  destruct h as [|b h]; [discriminate|]. cbn [String.prefix] in H.
  destruct (ascii_dec a b) as [-> | _]; [|discriminate].
  destruct (IH h H) as (post & ->). now exists post.
Qed.

Lemma contains_intro pre n post : PyStr.contains n (pre ++ n ++ post) = true.
Proof.
  induction pre as [|c pre IH].
  - cbn [String.append]. now rewrite contains_unfold, prefix_intro.
  - cbn [String.append]. rewrite contains_unfold. cbn iota. rewrite IH.
    destruct (String.prefix n _); reflexivity.
Qed.

Lemma contains_inv n h :
  PyStr.contains n h = true -> exists pre post, h = (pre ++ n ++ post)%string.
Proof.
  induction h as [|c h IH]; rewrite contains_unfold; intros H.
  - destruct (String.prefix n EmptyString) eqn:E; [|discriminate].
    apply prefix_inv in E. destruct E as (post & E). now exists EmptyString, post.
  - destruct (String.prefix n (String c h)) eqn:E.
    + apply prefix_inv in E. destruct E as (post & E). now exists EmptyString, post.
    + destruct (IH H) as (pre & post & ->). now exists (String c pre), post.
Qed.

(** A phrase that occurs in a phrase that occurs in a text occurs in the
    text. *)
Lemma contains_trans a b s :
  PyStr.contains a b = true -> PyStr.contains b s = true -> PyStr.contains a s = true.
Proof.
  intros Hab Hbs.
  apply contains_inv in Hab. destruct Hab as (pre1 & post1 & ->).
  apply contains_inv in Hbs. destruct Hbs as (pre2 & post2 & ->).
  rewrite !string_app_assoc, <- (string_app_assoc pre2 pre1).
  apply contains_intro.
Qed.

Lemma lower_char_idempotent c : PyStr.lower_char (PyStr.lower_char c) = PyStr.lower_char c.
Proof. destruct c as [[] [] [] [] [] [] [] []]; reflexivity. Qed.

Lemma lower_idempotent s : PyStr.lower (PyStr.lower s) = PyStr.lower s.
Proof.
  induction s as [|c s IH]; [reflexivity|].
  cbn [PyStr.lower]. now rewrite lower_char_idempotent, IH.
Qed.

(** X4: the mode of a query.  A query is answered in broad mode exactly
    when its lower-cased text contains "projects" or "working on": the
    phrases "current projects" and "all projects" of the list add
    nothing; and the letter case of the query does not matter. *)
Theorem broad_mode_phrases :
  forall query,
    is_project_query query
    = (PyStr.contains "projects" (PyStr.lower query)
       || PyStr.contains "working on" (PyStr.lower query))%bool /\
    is_project_query (PyStr.lower query) = is_project_query query.
Proof.
  intros query. split.
  - unfold is_project_query, PyStr.any_in, project_keywords. cbn [existsb].
    destruct (PyStr.contains "projects" (PyStr.lower query)) eqn:E; [reflexivity|].
    assert (H3 : PyStr.contains "current projects" (PyStr.lower query) = false).
    { destruct (PyStr.contains "current projects" _) eqn:E3; [|reflexivity].
      rewrite (contains_trans "projects" "current projects" _ eq_refl E3) in E.
      discriminate. }
    assert (H4 : PyStr.contains "all projects" (PyStr.lower query) = false).
    { destruct (PyStr.contains "all projects" _) eqn:E4; [|reflexivity].
      rewrite (contains_trans "projects" "all projects" _ eq_refl E4) in E.
      discriminate. }
    rewrite H3, H4. cbn [orb]. now rewrite orb_false_r.
  - unfold is_project_query. now rewrite lower_idempotent.
Qed.

(** X5: the two routes agree.  A question that [ask_question] treats as a
    comprehensive project question is also a broad-mode query of the
    retriever. *)
Theorem comprehensive_questions_are_broad :
  forall question,
    Pipeline._is_comprehensive_project_query question = true ->
    is_project_query question = true.
Proof.
  intros question H.
  unfold Pipeline._is_comprehensive_project_query, PyStr.any_in in H.
  apply existsb_exists in H. destruct H as (phrase & Hin & Hc).
  unfold is_project_query, PyStr.any_in, project_keywords. cbn [existsb].
  assert (Hp : PyStr.contains "projects" phrase = true).
  { unfold Pipeline.comprehensive_keywords in Hin. simpl in Hin.
    repeat (destruct Hin as [<- | Hin]; [reflexivity|]). destruct Hin. }
  now rewrite (contains_trans "projects" phrase _ Hp Hc).
Qed.

Lemma comprehensive_questions_are_broad_witness :
  is_project_query
    "What projects is Artiligence working on? List all current projects with details."
  = true.
Proof.
  apply (comprehensive_questions_are_broad
           "What projects is Artiligence working on? List all current projects with details.").
  reflexivity.
Defined.

End RetrieverMore.

(** ** More on the classifier *)

Module ClassifierMore.

Import Classifier ClassifierSpec.

(** X6: the document type of a nested file.  For a file that lies at least
    one directory below an absolute corpus root, the path relative to the
    root is made of the components below the root, and the document type
    is the first of them. *)
Theorem document_type_is_top_directory :
  forall cwd base_comps top inner filename,
    Forall (fun c => PyStr.regular c = true)
           (base_comps ++ top :: inner ++ [filename]) ->
    PyStr.relpath cwd (PyStr.absolute (base_comps ++ top :: inner ++ [filename]))
                  (PyStr.absolute base_comps)
    = PyStr.join "/" (top :: inner ++ [filename]) /\
    get_document_type cwd (PyStr.absolute (base_comps ++ top :: inner ++ [filename]))
                      (PyStr.absolute base_comps)
    = top.
Proof.
  intros cwd base_comps top inner filename H. split.
  - apply relpath_below; [discriminate | assumption].
  - rewrite get_document_type_below by (discriminate || assumption).
    cbn [length]. rewrite length_app. cbn [length].
    replace (length inner + 1) with (S (length inner)) by lia. reflexivity.
Qed.

Lemma document_type_is_top_directory_witness :
  get_document_type "/tmp"
    (PyStr.absolute (["srv"; "corpus"] ++ "Employees" :: ["2024"] ++ ["alice.md"]))
    (PyStr.absolute ["srv"; "corpus"])
  = "Employees".
Proof.
  apply (document_type_is_top_directory "/tmp" ["srv"; "corpus"] "Employees" ["2024"]
           "alice.md").
  repeat constructor.
Defined.

Lemma first_rule_In rules s project :
  first_rule rules s = Some project -> In project (map snd rules).
Proof.
  induction rules as [|[keywords name] rules IH]; [discriminate|].
  cbn [first_rule map snd]. destruct (PyStr.any_in keywords s).
  - intros H. injection H as <-. now left.
  - intros H. right. now apply IH.
Qed.

Lemma from_folders_range filename parts :
  In (from_folders filename parts) (map snd folder_rules) \/
  from_folders filename parts = "General Project" \/
  exists part,
    In part parts /\ part <> filename /\ part <> "Projects" /\
    from_folders filename parts = PyStr.title (PyStr.replace_char "_" " " part).
Proof.
  induction parts as [|part parts IH]; [right; left; reflexivity|].
  cbn [from_folders].
  destruct (String.eqb_spec part filename) as [-> | Hf]; cbn [negb andb].
  - destruct IH as [IH | [IH | (q & Hq & IH)]]; auto.
    right. right. exists q. split; [now right | assumption].
  - destruct (String.eqb_spec part "Projects") as [-> | Hp]; cbn [negb].
    + destruct IH as [IH | [IH | (q & Hq & IH)]]; auto.
      right. right. exists q. split; [now right | assumption].
    + destruct (first_rule folder_rules (PyStr.lower part)) as [project|] eqn:E.
      * left. eapply first_rule_In; eassumption.
      * right. right. exists part. split; [now left | auto].
Qed.

(** X7: the labels of the classifier.  Whatever the path, the project is
    one of the five projects of the keyword tables, or the sentinel
    "General Project", or the title-cased name (underscores as spaces) of
    a component of the path other than the file name and "Projects". *)
Theorem project_name_range :
  forall file_path,
    let project := determine_project_name file_path in
    In project (map snd path_rules) \/
    project = "General Project" \/
    exists part,
      In part (PyStr.split PyStr.slash file_path) /\
      part <> PyStr.basename file_path /\ part <> "Projects" /\
      project = PyStr.title (PyStr.replace_char "_" " " part).
Proof.
  intros file_path project. unfold project, determine_project_name.
  destruct (first_rule path_rules (PyStr.lower file_path)) as [name|] eqn:E.
  - left. eapply first_rule_In; eassumption.
  - destruct (from_folders_range (PyStr.basename file_path)
                (rev (PyStr.split PyStr.slash file_path)))
      as [H | [H | (part & Hin & H)]].
    + left. exact H.
    + right. now left.
    + right. right. exists part. split; [now apply in_rev | assumption].
Qed.

Lemma from_folders_skip filename skipped rest :
  Forall (fun s => s = filename \/ s = "Projects") skipped ->
  from_folders filename (skipped ++ rest) = from_folders filename rest.
Proof.
  induction 1 as [|s skipped Hs _ IH]; [reflexivity|].
  cbn [app from_folders]. destruct Hs as [-> | ->].
  - now rewrite String.eqb_refl.
  - rewrite (String.eqb_refl "Projects"), andb_false_r. exact IH.
Qed.

Lemma split_absolute_parts comps :
  comps <> [] -> Forall (fun c => PyStr.regular c = true) comps ->
  PyStr.split PyStr.slash (PyStr.absolute comps) = EmptyString :: comps.
Proof.
  intros Hne H.
  change (PyStr.split PyStr.slash (PyStr.absolute comps))
    with (EmptyString :: PyStr.split PyStr.slash (PyStr.join "/" comps)).
  now rewrite split_join.
Qed.

(** X8: the nearest directory decides.  For an absolute path that matches
    none of the keyword lists as a whole, the project comes from the
    nearest directory above the file that is neither named like the file
    nor "Projects": the folder keyword tables if one matches its name, its
    title-cased name otherwise.  For a file directly in [Projects] this is
    the directory that holds [Projects]. *)
Theorem nearest_directory_decides :
  forall dirs folder skipped filename,
    let file_path := PyStr.absolute (dirs ++ folder :: skipped ++ [filename]) in
    Forall (fun c => PyStr.regular c = true) (dirs ++ folder :: skipped ++ [filename]) ->
    Forall (fun s => s = filename \/ s = "Projects") skipped ->
    folder <> filename -> folder <> "Projects" ->
    first_rule path_rules (PyStr.lower file_path) = None ->
    determine_project_name file_path
    = match first_rule folder_rules (PyStr.lower folder) with
      | Some project => project
      | None => PyStr.title (PyStr.replace_char "_" " " folder)
      end.
Proof.
  intros dirs folder skipped filename file_path Hreg Hskip Hf Hp Hnone.
  unfold determine_project_name. fold file_path. rewrite Hnone.
  assert (Hparts : PyStr.split PyStr.slash file_path
                   = EmptyString :: dirs ++ folder :: skipped ++ [filename]).
  { apply split_absolute_parts; [|assumption]. destruct dirs; discriminate. }
  unfold PyStr.basename. rewrite Hparts.
  assert (Hlast : last (EmptyString :: dirs ++ folder :: skipped ++ [filename]) EmptyString
                  = filename).
  { rewrite (app_comm_cons dirs), (app_comm_cons skipped), !app_assoc.
    apply last_last. }
  rewrite Hlast.
  assert (Hrev : rev (EmptyString :: dirs ++ folder :: skipped ++ [filename])
                 = [filename] ++ rev skipped ++ folder :: rev dirs ++ [EmptyString]).
  { cbn [rev]. rewrite rev_app_distr. cbn [rev]. rewrite rev_app_distr. cbn [rev app].
    now rewrite <- !app_assoc. }
  rewrite Hrev, from_folders_skip, from_folders_skip.
  - cbn [from_folders].
    apply String.eqb_neq in Hf, Hp. now rewrite Hf, Hp.
  - apply Forall_rev. exact Hskip.
  - constructor; [now left | constructor].
Qed.

Lemma nearest_directory_decides_witness :
  determine_project_name (PyStr.absolute (["corpus"; "Projects"] ++ "my_notes" :: [] ++ ["readme.md"]))
  = "My Notes" /\
  determine_project_name (PyStr.absolute ([] ++ "corpus" :: ["Projects"] ++ ["readme.md"]))
  = "Corpus".
Proof.
  split.
  - apply (nearest_directory_decides ["corpus"; "Projects"] "my_notes" [] "readme.md");
      try (repeat constructor); try discriminate.
  - apply (nearest_directory_decides [] "corpus" ["Projects"] "readme.md");
      try discriminate; try reflexivity.
    + repeat constructor.
    + constructor; [now right | constructor].
Defined.

Lemma lower_app a b :
  PyStr.lower (a ++ b) = (PyStr.lower a ++ PyStr.lower b)%string.
Proof. induction a as [|c a IH]; simpl; [reflexivity | now rewrite IH]. Qed.

(** X9: the first keyword list has priority.  A path that contains, in any
    letter case, one of the keywords of the first list is classified as
    "SQL Server Upgrades", whatever else the path contains. *)
Theorem sql_keywords_have_priority :
  forall before keyword_text after keyword,
    In keyword ["aa_sql"; "sql_server"; "sql server"; "version_upgrade"; "cumulative";
                "aiskoldb"; "aiscengdb"] ->
    PyStr.lower keyword_text = keyword ->
    determine_project_name (before ++ keyword_text ++ after)%string
    = "SQL Server Upgrades".
Proof.
  intros before keyword_text after keyword Hin Hlow.
  unfold determine_project_name. rewrite !lower_app, Hlow.
  unfold path_rules. cbn [first_rule].
  assert (H : PyStr.any_in
                ["aa_sql"; "sql_server"; "sql server"; "version_upgrade"; "cumulative";
                 "aiskoldb"; "aiscengdb"]
                (PyStr.lower before ++ keyword ++ PyStr.lower after)%string = true).
  { unfold PyStr.any_in. apply existsb_exists. exists keyword.
    split; [assumption | apply RetrieverMore.contains_intro]. }
  now rewrite H.
Qed.

Lemma sql_keywords_have_priority_witness :
  determine_project_name
    ("/data/SFMS_Mining/" ++ "SQL_Server" ++ "/migration_events.sql")%string
  = "SQL Server Upgrades".
Proof.
  apply (sql_keywords_have_priority "/data/SFMS_Mining/" "SQL_Server"
           "/migration_events.sql" "sql_server").
  - simpl. tauto.
  - reflexivity.
Defined.

End ClassifierMore.

(** ** More on the corpus builder *)

Module CorpusMore.

Import Classifier Corpus CorpusSpec.
Local Open Scope nat_scope.

(** *** Discovery *)








(** *** The counters of the standard pass *)

Lemma load_file_counts cwd base_path max_file_size st p data :
  (loaded_count st = length (documents st) ->
   loaded_count (load_file cwd base_path max_file_size st (p, data))
   = length (documents (load_file cwd base_path max_file_size st (p, data)))) /\
  skipped_large (load_file cwd base_path max_file_size st (p, data))
  = skipped_large st + (if max_file_size <? file_size data then 1 else 0) /\
  skipped_large (load_file cwd base_path max_file_size st (p, data))
  + skipped_errors (load_file cwd base_path max_file_size st (p, data))
  <= skipped_large st + skipped_errors st + 1.
Proof.
  unfold load_file.
  destruct (max_file_size <? file_size data);
    [cbn [documents loaded_count skipped_large skipped_errors];
     repeat split; [tauto | lia | lia]|].
  repeat match goal with
         | |- context [if ?c then _ else _] => destruct c
         | |- context [match extracted data with _ => _ end] =>
             destruct (extracted data) as [[|? ?]|]
         end;
    cbn [documents loaded_count skipped_large skipped_errors add_documents skip_error];
    rewrite ?length_app, ?length_map; cbn [length];
    repeat split; intros; lia.
Qed.

(** X12: the counters.  After [load_documents_recursive], the counter of
    loaded documents is the number of documents returned, the counter of
    files skipped as too large is the number of discovered files above the
    size limit, and the two skip counters together never exceed the number
    of discovered files. *)
Theorem load_counters_account_for_the_files :
  forall cwd base_path max_file_size tree,
    let st := load_state_recursive cwd base_path max_file_size tree in
    let files := find_all_files_recursive base_path tree in
    loaded_count st = length (load_documents_recursive cwd base_path max_file_size tree) /\
    skipped_large st
    = length (filter (fun file => max_file_size <? file_size (snd file)) files) /\
    skipped_large st + skipped_errors st <= length files.
Proof.
  intros cwd base_path max_file_size tree st files.
  assert (H : forall fs st0,
             let st1 := fold_left (load_file cwd base_path max_file_size) fs st0 in
             (loaded_count st0 = length (documents st0) ->
              loaded_count st1 = length (documents st1)) /\
             skipped_large st1
             = skipped_large st0
               + length (filter (fun file => max_file_size <? file_size (snd file)) fs) /\
             skipped_large st1 + skipped_errors st1
             <= skipped_large st0 + skipped_errors st0 + length fs).
  { induction fs as [|[p data] fs IH]; intros st0.
    - cbn. repeat split; [tauto | lia | lia].
    - cbn [fold_left].
      destruct (load_file_counts cwd base_path max_file_size st0 p data)
        as (Hl & Hs & He).
      destruct (IH (load_file cwd base_path max_file_size st0 (p, data)))
        as (Hl' & Hs' & He').
      cbn zeta in *. cbn [filter snd length].
      split; [auto|]. split.
      + rewrite Hs', Hs. destruct (max_file_size <? file_size data); cbn [length]; lia.
      + lia. }
  destruct (H files (mkLoad [] 0 0 0)) as (Hl & Hs & He). cbn zeta in *.
  unfold st, load_documents_recursive, load_state_recursive. fold files.
  cbn [loaded_count documents skipped_large skipped_errors length] in *.
  repeat split; [auto | lia | lia].
Qed.

(** *** What the documents of the two passes carry *)

Lemma add_metadata_facts p content doc_type file_type subdirectory :
  let doc := add_metadata (loaded p content) doc_type file_type subdirectory in
  source_path doc = p /\
  meta_get "doc_type" (metadata doc) = Some doc_type /\
  Retriever.project_of doc = None.
Proof.
  unfold add_metadata, source_path, Retriever.project_of, loaded.
  cbn [metadata page_content].
  destruct (PyStr.nonempty file_type), (PyStr.nonempty subdirectory);
    repeat split; reflexivity.
Qed.

Lemma load_file_documents cwd base_path max_file_size st p data doc :
  In doc (documents (load_file cwd base_path max_file_size st (p, data))) ->
  In doc (documents st) \/
  (source_path doc = p /\ file_size data <= max_file_size /\
   meta_get "doc_type" (metadata doc) = Some (get_document_type cwd p base_path) /\
   Retriever.project_of doc = None).
Proof.
  unfold load_file.
  destruct (max_file_size <? file_size data) eqn:Esize; [now left|].
  apply Nat.ltb_ge in Esize.
  repeat match goal with
         | |- context [if ?c then _ else _] => destruct c
         | |- context [match extracted data with _ => _ end] =>
             destruct (extracted data) as [[|? ?]|]
         end;
    cbn [documents skip_error]; auto; intros H;
    apply In_add_documents in H; (destruct H as [H | H]; [now left | right]);
    try (destruct H as [<- | []]);
    try (apply in_map_iff in H; destruct H as (c & <- & _));
    (split; [apply add_metadata_facts|]); (split; [assumption|]);
    (split; apply add_metadata_facts).
Qed.

(** X13: the documents of the standard pass.  Every document of
    [load_documents_recursive] comes from a discovered file that is not
    above the size limit, carries the document type of that file, and has
    no project: the retriever never files it under a group. *)
Theorem standard_documents_have_no_project :
  forall cwd base_path max_file_size tree doc,
    In doc (load_documents_recursive cwd base_path max_file_size tree) ->
    (exists data,
        In (source_path doc, data) (find_all_files_recursive base_path tree) /\
        file_size data <= max_file_size) /\
    meta_get "doc_type" (metadata doc)
    = Some (get_document_type cwd (source_path doc) base_path) /\
    Retriever.project_of doc = None /\
    Retriever.is_grouped doc = false.
Proof.
  intros cwd base_path max_file_size tree doc.
  unfold load_documents_recursive, load_state_recursive.
  assert (H : forall files st,
             In doc (documents (fold_left (load_file cwd base_path max_file_size) files st)) ->
             In doc (documents st) \/
             ((exists data, In (source_path doc, data) files /\
                            file_size data <= max_file_size) /\
              meta_get "doc_type" (metadata doc)
              = Some (get_document_type cwd (source_path doc) base_path) /\
              Retriever.project_of doc = None)).
  { induction files as [|[p data] files IH]; intros st Hin; [now left|].
    cbn [fold_left] in Hin. apply IH in Hin.
    destruct Hin as [Hin | ((d & Hd & Hsize) & Htype & Hproj)].
    - apply load_file_documents in Hin.
      destruct Hin as [Hin | (Hsrc & Hsize & Htype & Hproj)]; [now left|].
      right. subst p. split; [|split; assumption].
      exists data. split; [now left | assumption].
    - right. split; [|split; assumption].
      exists d. split; [now right | assumption]. }
  intros Hin. apply H in Hin. destruct Hin as [[] | (Hfile & Htype & Hproj)].
  repeat split; try assumption.
  unfold Retriever.is_grouped. now rewrite Hproj.
Qed.

Lemma standard_documents_have_no_project_witness :
  Retriever.is_grouped
    (add_metadata (loaded "/corpus/webapp/index.js" "code") "webapp" "js" "webapp")
  = false.
Proof.
  apply (standard_documents_have_no_project "/" "/corpus" MAX_FILE_SIZE tooling_tree).
  vm_compute. tauto.
Defined.





(** *** The size of the corpus *)

(** X15: the cap.  With a sampler that returns as many elements as it is
    asked for, [load_all_documents] never returns more than 5000 chunks;
    and when the documents give at most 5000 chunks, it returns all of
    them in their order and leaves the random generator alone. *)
Theorem build_returns_at_most_5000_chunks :
  forall (rng : Type) (random_seed : nat -> rng)
         (random_sample : rng -> list Document -> nat -> list Document * rng),
    (forall s population k,
        k <= length population -> length (fst (random_sample s population k)) = k) ->
    forall cwd base_path max_file_size state tree,
      let build := load_all_documents cwd base_path max_file_size rng random_seed
                     random_sample state tree in
      length (fst build) <= 5000 /\
      (length (all_chunks cwd base_path max_file_size tree) <= 5000 ->
       build = (all_chunks cwd base_path max_file_size tree, state)).
Proof.
  intros rng random_seed random_sample Hlen cwd base_path max_file_size state tree build.
  unfold build, load_all_documents, cap_chunks.
  destruct (5000 <? length (all_chunks cwd base_path max_file_size tree)) eqn:E.
  - apply Nat.ltb_lt in E. split; [rewrite Hlen; lia | lia].
  - apply Nat.ltb_ge in E. split; [exact E | reflexivity].
Qed.

Lemma build_returns_at_most_5000_chunks_witness :
  length (fst (load_all_documents "/" "/corpus" MAX_FILE_SIZE nat (fun n => n)
                 rotate_sample 0 tooling_tree)) <= 5000.
Proof.
  apply (build_returns_at_most_5000_chunks nat (fun n => n) rotate_sample
           rotate_sample_length "/" "/corpus" MAX_FILE_SIZE 0 tooling_tree).
Defined.



End CorpusMore.

(** ** Breakdowns *)

Module BreakdownFacts.

Import Corpus CorpusSpec Breakdown.
Local Open Scope nat_scope.

Lemma count_of_bump label k counts :
  count_of label (bump k counts)
  = if String.eqb k label then S (count_of label counts) else count_of label counts.
Proof.
  induction counts as [|[k' n] counts IH]; cbn [bump count_of].
  - destruct (String.eqb k label); reflexivity.
  - destruct (String.eqb_spec k' k) as [-> | Hne]; cbn [count_of].
    + destruct (String.eqb k label); reflexivity.
    + rewrite IH. destruct (String.eqb_spec k' label) as [-> | Hl]; [|reflexivity].
      destruct (String.eqb_spec k label) as [-> | _]; [congruence | reflexivity].
Qed.

Lemma total_bump k counts : total (bump k counts) = S (total counts).
Proof.
  induction counts as [|[k' n] counts IH]; [reflexivity|].
  cbn [bump]. destruct (String.eqb k' k); unfold total in *; cbn [fold_right snd] in *; lia.
Qed.

Lemma keys_bump_In k counts q :
  In q (map fst (bump k counts)) <-> In q (map fst counts) \/ q = k.
Proof.
  induction counts as [|[k' n] counts IH]; cbn [bump map fst].
  - simpl. intuition.
  - destruct (String.eqb_spec k' k) as [-> | Hne]; cbn [map fst In].
    + intuition.
    + rewrite IH. intuition.
Qed.

Lemma keys_bump_NoDup k counts :
  NoDup (map fst counts) -> NoDup (map fst (bump k counts)).
Proof.
  induction counts as [|[k' n] counts IH]; cbn [bump map fst]; intros H.
  - constructor; [intros [] | constructor].
  - inversion H as [|? ? Hnot Hnd]; subst.
    destruct (String.eqb_spec k' k) as [-> | Hne]; cbn [map fst].
    + now constructor.
    + constructor; [|now apply IH].
      intros Hin. apply keys_bump_In in Hin. destruct Hin as [Hin | E]; congruence.
Qed.

(** X17: the breakdowns.  The dictionary that the counting loops build has
    every label once; the count of a label is the number of documents
    that carry it, a document without the key counted under the default;
    and the counts add up to the number of documents. *)
Theorem breakdown_counts_every_document_once :
  forall key default docs,
    NoDup (map fst (breakdown key default docs)) /\
    (forall label,
        count_of label (breakdown key default docs)
        = length (filter (fun doc => String.eqb (label_of key default doc) label) docs)) /\
    total (breakdown key default docs) = length docs.
Proof.
  intros key default docs. unfold breakdown.
  induction docs as [|doc docs IH] using rev_ind.
  - cbn. split; [constructor|]. split; [intros label|]; reflexivity.
  - destruct IH as (Hnd & Hcount & Htotal).
    rewrite fold_left_app. cbn [fold_left].
    split; [now apply keys_bump_NoDup|]. split.
    + intros label. rewrite count_of_bump, filter_app, length_app, Hcount.
      cbn [filter]. destruct (String.eqb (label_of key default doc) label); cbn [length]; lia.
    + rewrite total_bump, Htotal, length_app. cbn [length]. lia.
Qed.

End BreakdownFacts.
